(** * SONAR agent: the command executor

    A shallow embedding of the agent's command execution framework
    (package [agent]: [CommandExecutor] and its methods) together with the
    properties its specification states about validation, output capture,
    rate limiting, the audit history, timeouts and outcome mapping.

    Conventions.
    - Go [string] is [string] (a sequence of bytes), [[]byte] is
      [list byte]; Go [int], [int64] and [time.Duration] are [Z] (none of the
      arithmetic below can overflow: it only compares, subtracts a length
      from a larger counter, or clamps).
    - [time.Time] is an instant in nanoseconds as [Z]; [a.Sub b] is [a - b].
    - A Go [error] is [option string]: [None] is [nil], [Some msg] carries
      the text of [err.Error()].
    - The mutable executor is threaded explicitly: a method returns the
      executor it leaves behind.
    - What the operating system does (the clock, the child process) enters
      as an argument; what the executor asks of it leaves as a trace of
      events. *)

From Stdlib Require Import ZArith Ascii String DecimalString.
From Stdlib.Strings Require Import Byte.
From stdpp Require Import gmap strings list.

(** ** Standard-library string primitives *)

(** [strings.HasPrefix(s, prefix)]. *)
Definition HasPrefix (s pre : string) : bool := String.prefix pre s.

(** [strings.Contains(s, substr)]: [substr] occurs somewhere in [s]. *)
Fixpoint Contains (s substr : string) : bool :=
  HasPrefix s substr ||
  match s with
  | EmptyString => false
  | String _ s' => Contains s' substr
  end.

(** [strings.ContainsAny(s, chars)]: some byte of [s] is one of [chars]
    (the sets used here are ASCII, where Go also works byte by byte). *)
Definition ContainsAny (s chars : string) : bool :=
  existsb (fun c => existsb (Ascii.eqb c) (list_ascii_of_string chars))
          (list_ascii_of_string s).

(** [strings.Split(s, ",")]. *)
Fixpoint Split_comma (s : string) : list string :=
  match s with
  | EmptyString => [EmptyString]
  | String c s' =>
      if Ascii.eqb c "," then EmptyString :: Split_comma s'
      else match Split_comma s' with
           | [] => [String c EmptyString]
           | x :: xs => String c x :: xs
           end
  end.

(** [%d] of [fmt.Sprintf] / [fmt.Errorf]. *)
Definition fmt_d (z : Z) : string := NilZero.string_of_int (Z.to_int z).

Definition LF : string := String (ascii_of_nat 10) EmptyString.
Definition CR : string := String (ascii_of_nat 13) EmptyString.
Definition TAB : string := String (ascii_of_nat 9) EmptyString.
Definition DQUOTE : string := String (ascii_of_nat 34) EmptyString.

(** The parts of the Go runtime library whose behaviour depends on the
    platform or is long to spell out.  The executor is written against this
    interface; [Unix] below gives the instance used to run examples. *)
Class GoRuntime := {
  (** [filepath.IsAbs] *)
  filepath_IsAbs : string -> bool;
  (** [filepath.Dir] *)
  filepath_Dir : string -> string;
  (** [time.Duration.String], the [%v] rendering of a duration *)
  Duration_String : Z -> string
}.

(** ** Data model *)

(** A command execution request. [Env] is a Go map, [None] when nil. *)
Record CommandRequest := {
  Command : string;
  Args : list string;
  Timeout : Z;
  Workdir : string;
  Env : option (gmap string string)
}.

(** The result of a command execution. *)
Record CommandResponse := {
  ExitCode : Z;
  Stdout : string;
  Stderr : string;
  Error : string;
  Duration : Z
}.

(** An entry of the execution history. *)
Record CommandHistoryEntry := {
  entry_Command : string;
  entry_Args : list string;
  Timestamp : Z;
  entry_Duration : Z;
  entry_ExitCode : Z;
  entry_Workdir : string
}.

(** The executor.  [whitelist = None] is the nil slice (allow all);
    [concurrentSemaphore] is the number of tokens waiting in the buffered
    channel, i.e. the number of free execution slots. *)
Record CommandExecutor := {
  whitelist : option (list string);
  blacklist : list string;
  allowedPaths : list string;
  history : list CommandHistoryEntry;
  rateLimitTracker : gmap string (list Z);
  concurrentSemaphore : nat;
  maxOutputSize : Z;
  maxConcurrent : Z;
  rateLimit : Z;
  rateLimitWindow : Z
}.

Definition set_whitelist (w : option (list string)) (ce : CommandExecutor) :=
  {| whitelist := w; blacklist := blacklist ce; allowedPaths := allowedPaths ce;
     history := history ce; rateLimitTracker := rateLimitTracker ce;
     concurrentSemaphore := concurrentSemaphore ce;
     maxOutputSize := maxOutputSize ce; maxConcurrent := maxConcurrent ce;
     rateLimit := rateLimit ce; rateLimitWindow := rateLimitWindow ce |}.

Definition set_blacklist (b : list string) (ce : CommandExecutor) :=
  {| whitelist := whitelist ce; blacklist := b; allowedPaths := allowedPaths ce;
     history := history ce; rateLimitTracker := rateLimitTracker ce;
     concurrentSemaphore := concurrentSemaphore ce;
     maxOutputSize := maxOutputSize ce; maxConcurrent := maxConcurrent ce;
     rateLimit := rateLimit ce; rateLimitWindow := rateLimitWindow ce |}.

Definition set_allowedPaths (p : list string) (ce : CommandExecutor) :=
  {| whitelist := whitelist ce; blacklist := blacklist ce; allowedPaths := p;
     history := history ce; rateLimitTracker := rateLimitTracker ce;
     concurrentSemaphore := concurrentSemaphore ce;
     maxOutputSize := maxOutputSize ce; maxConcurrent := maxConcurrent ce;
     rateLimit := rateLimit ce; rateLimitWindow := rateLimitWindow ce |}.

Definition set_history (h : list CommandHistoryEntry) (ce : CommandExecutor) :=
  {| whitelist := whitelist ce; blacklist := blacklist ce;
     allowedPaths := allowedPaths ce;
     history := h; rateLimitTracker := rateLimitTracker ce;
     concurrentSemaphore := concurrentSemaphore ce;
     maxOutputSize := maxOutputSize ce; maxConcurrent := maxConcurrent ce;
     rateLimit := rateLimit ce; rateLimitWindow := rateLimitWindow ce |}.

Definition set_rateLimitTracker (t : gmap string (list Z)) (ce : CommandExecutor) :=
  {| whitelist := whitelist ce; blacklist := blacklist ce;
     allowedPaths := allowedPaths ce;
     history := history ce; rateLimitTracker := t;
     concurrentSemaphore := concurrentSemaphore ce;
     maxOutputSize := maxOutputSize ce; maxConcurrent := maxConcurrent ce;
     rateLimit := rateLimit ce; rateLimitWindow := rateLimitWindow ce |}.

Definition set_concurrentSemaphore (n : nat) (ce : CommandExecutor) :=
  {| whitelist := whitelist ce; blacklist := blacklist ce;
     allowedPaths := allowedPaths ce;
     history := history ce; rateLimitTracker := rateLimitTracker ce;
     concurrentSemaphore := n;
     maxOutputSize := maxOutputSize ce; maxConcurrent := maxConcurrent ce;
     rateLimit := rateLimit ce; rateLimitWindow := rateLimitWindow ce |}.

Definition set_limits (out conc rate : Z) (ce : CommandExecutor) :=
  {| whitelist := whitelist ce; blacklist := blacklist ce;
     allowedPaths := allowedPaths ce;
     history := history ce; rateLimitTracker := rateLimitTracker ce;
     concurrentSemaphore := concurrentSemaphore ce;
     maxOutputSize := out; maxConcurrent := conc;
     rateLimit := rate; rateLimitWindow := rateLimitWindow ce |}.

(** ** Configuration *)

(** The default whitelist for production. *)
Definition default_whitelist : list string :=
  [ "/usr/bin/curl"; "/usr/bin/wget"; "/bin/ps"; "/usr/bin/systemctl";
    "/bin/hostname"; "/usr/bin/uptime"; "/bin/date"; "/bin/whoami";
    "/usr/bin/docker"; "/usr/local/bin/docker"; "/bin/cat"; "/usr/bin/head";
    "/usr/bin/tail"; "/bin/ls"; "/usr/bin/find"; "/bin/echo"; "/bin/pwd";
    "/bin/sleep"; "/usr/bin/env" ].

(** The default allowed paths. *)
Definition default_allowedPaths : list string :=
  [ "/usr/bin"; "/bin"; "/usr/local/bin"; "/usr/sbin"; "/sbin" ].

(** The dangerous commands blacklist (always blocked). *)
Definition dangerous_commands : list string :=
  [ "rm -rf"; "mkfs"; "dd "; "fdisk"; "parted"; "shutdown"; "reboot";
    "halt"; "poweroff"; ":(){:|:&};:" ].

(** The command injection patterns of [ValidateCommand]. *)
Definition injectionPatterns : list string :=
  [ ";"; "|"; "&"; "$("; "`"; LF; CR; TAB ].

Definition Minute : Z := 60 * 1000000000.
Definition Second : Z := 1000000000.

Section Configuration.

(** The agent's environment lookup [GetEnv] (elsewhere in package
    [agent]) and the library parsers [loadConfig] calls:
    [json.Unmarshal] into a [[]string], [strings.TrimSpace], and
    [fmt.Sscanf(s, "%d", &n)].  [None] stands for "not set" and for a parse
    error. *)
Variable GetEnv : string -> option string.
Variable json_Unmarshal : string -> option (list string).
Variable strings_TrimSpace : string -> string.
Variable Sscanf_d : string -> option Z.

(** [loadConfig] loads configuration from environment variables. *)
Definition loadConfig (ce : CommandExecutor) : CommandExecutor :=
  let ce :=
    match GetEnv "COMMAND_WHITELIST" with
    | Some w =>
        if String.eqb w "allow_all" then set_whitelist None ce
        else if HasPrefix w "[" then
          match json_Unmarshal w with
          | Some commands => set_whitelist (Some commands) ce
          | None => ce
          end
        else set_whitelist (Some (map strings_TrimSpace (Split_comma w))) ce
    | None => set_whitelist (Some default_whitelist) ce
    end in
  let ce :=
    match GetEnv "ALLOWED_PATHS" with
    | Some paths =>
        if HasPrefix paths "[" then
          match json_Unmarshal paths with
          | Some pathList => set_allowedPaths pathList ce
          | None => ce
          end
        else set_allowedPaths (map strings_TrimSpace (Split_comma paths)) ce
    | None => set_allowedPaths default_allowedPaths ce
    end in
  let ce := set_blacklist dangerous_commands ce in
  let size :=
    match GetEnv "COMMAND_MAX_OUTPUT" with
    | Some s => match Sscanf_d s with
                | Some size => size
                | None => maxOutputSize ce
                end
    | None => maxOutputSize ce
    end in
  let limit :=
    match GetEnv "COMMAND_RATE_LIMIT" with
    | Some s => match Sscanf_d s with
                | Some limit => if (0 <? limit)%Z then limit else rateLimit ce
                | None => rateLimit ce
                end
    | None => rateLimit ce
    end in
  let max :=
    match GetEnv "COMMAND_MAX_CONCURRENT" with
    | Some s => match Sscanf_d s with
                | Some max => if (0 <? max)%Z then max else maxConcurrent ce
                | None => maxConcurrent ce
                end
    | None => maxConcurrent ce
    end in
  set_limits size max limit ce.

(** The struct literal of [NewCommandExecutor]: empty history and
    tracker, a semaphore channel of capacity 5 holding no token yet. *)
Definition executor_literal : CommandExecutor :=
  {| whitelist := None; blacklist := []; allowedPaths := [];
     history := []; rateLimitTracker := ∅;
     concurrentSemaphore := 0;
     maxOutputSize := 1024 * 1024; maxConcurrent := 5;
     rateLimit := 10; rateLimitWindow := Minute |}.

(** Capacity of the semaphore channel, [make(chan struct{}, 5)]. *)
Definition semaphore_capacity : Z := 5.

(** [NewCommandExecutor] creates a new command executor.  After loading
    the configuration it sends [maxConcurrent] tokens into the semaphore
    channel; a send into the full channel blocks, and nothing receives
    yet, so with [maxConcurrent] above the capacity the constructor never
    returns: [None]. *)
Definition NewCommandExecutor : option CommandExecutor :=
  let executor := loadConfig executor_literal in
  if (maxConcurrent executor <=? semaphore_capacity)%Z
  then Some (set_concurrentSemaphore (Z.to_nat (maxConcurrent executor)) executor)
  else None.

End Configuration.

(** ** The executor's methods *)

(** Text of the refusal response of [ExecuteCommand]:
    [&CommandResponse{Error: msg, ExitCode: -1}]. *)
Definition refusal (msg : string) : CommandResponse :=
  {| ExitCode := -1; Stdout := EmptyString; Stderr := EmptyString;
     Error := msg; Duration := 0 |}.

(** [addToHistory] adds a command to the execution history and keeps only
    the last 100 entries. *)
Definition addToHistory (ce : CommandExecutor) (entry : CommandHistoryEntry)
  : CommandExecutor :=
  let h := history ce ++ [entry] in
  if 100 <? length h then set_history (drop (length h - 100) h) ce
  else set_history h ce.

(** [GetHistory] returns the command history: [ce.history[start:]]. *)
Definition GetHistory (ce : CommandExecutor) (limit : Z) : list CommandHistoryEntry :=
  let len := Z.of_nat (length (history ce)) in
  let limit := if ((limit <=? 0) || (len <? limit))%Z then len else limit in
  let start := (len - limit)%Z in
  drop (Z.to_nat start) (history ce).

(** [limitedWriter] wraps a buffer and limits the amount of data written. *)
Record limitedWriter := {
  writer : list byte;
  maxSize : Z;
  bytesLeft : Z
}.

(** [limitedWriter.Write]: the writer afterwards, and the returned count
    [n] and error [err]. *)
Definition Write (lw : limitedWriter) (p : list byte)
  : limitedWriter * Z * option string :=
  if (bytesLeft lw <=? 0)%Z then (lw, Z.of_nat (length p), None)
  else if (bytesLeft lw <? Z.of_nat (length p))%Z then
    let n := bytesLeft lw in
    ({| writer := writer lw ++ take (Z.to_nat n) p;
        maxSize := maxSize lw; bytesLeft := 0 |}, n, None)
  else
    ({| writer := writer lw ++ p;
        maxSize := maxSize lw;
        bytesLeft := bytesLeft lw - Z.of_nat (length p) |},
     Z.of_nat (length p), None).

(** The sink [ExecuteCommand] attaches to a stream. *)
Definition new_limitedWriter (max : Z) : limitedWriter :=
  {| writer := []; maxSize := max; bytesLeft := max |}.

(** A sequence of [Write] calls, in order. *)
Definition Writes (lw : limitedWriter) (ps : list (list byte)) : limitedWriter :=
  fold_left (fun lw p => (Write lw p).1.1) ps lw.

(** The effective timeout: lines "Set default timeout" of [ExecuteCommand]. *)
Definition effectiveTimeout (timeout : Z) : Z :=
  let timeout := if (timeout <=? 0)%Z then 30%Z else timeout in
  if (300 <? timeout)%Z then 300%Z else timeout.

(** The command handed to [os/exec]: [exec.CommandContext(cmdCtx, req.Command,
    req.Args...)] with its directory and environment; [cmd_Timeout] is
    the deadline of [cmdCtx] in seconds. *)
Record Cmd := {
  Path : string;
  cmd_Args : list string;
  cmd_Dir : string;
  cmd_Env : option (list string);
  cmd_Timeout : Z
}.

(** What [ExecuteCommand] asks of the outside world: [EvRun] is the call
    [cmd.Run()], the one place a process is created; [EvLog] is the
    [slog.Info("Command executed", ...)] record. *)
Inductive Event :=
| EvRun (cmd : Cmd)
| EvLog (command : string) (args : list string) (exitCode : Z)
        (duration : Z) (workdir : string).

(** The error returned by [cmd.Run()], as far as [ExecuteCommand] looks at
    it: nil; an [*exec.ExitError] with its [ExitCode()] and text; or any
    other error with the verdict of [os.IsNotExist] and its text. *)
Inductive RunError :=
| NoError
| ExitError (code : Z) (msg : string)
| OtherError (notExist : bool) (msg : string).

(** What the host supplies when a request arrives: the two readings of the
    clock ([startTime], and [now] inside [checkRateLimit]) and
    [os.Environ()]. *)
Record Arrival := {
  arr_start : Z;
  arr_now : Z;
  arr_environ : list string
}.

(** What the host supplies for one [cmd.Run()]: the [Write] calls made on
    the two sinks, the returned error, whether [cmdCtx.Err()] is
    [context.DeadlineExceeded] afterwards, and [time.Since(startTime)]. *)
Record RunResult := {
  stdout_writes : list (list byte);
  stderr_writes : list (list byte);
  run_err : RunError;
  deadline_exceeded : bool;
  since_start : Z
}.

(** How far an attempt got before the process is run. *)
Inductive Admission :=
| Refused (resp : CommandResponse)
| Running (cmd : Cmd).

Section Executor.

Context {rt : GoRuntime}.

(** [ValidateCommand] checks if a command is allowed to be executed. *)
Definition ValidateCommand (ce : CommandExecutor) (command : string)
  : option string :=
  match find (Contains command) (blacklist ce) with
  | Some dangerous =>
      Some ("command contains dangerous pattern: " +:+ dangerous)
  | None =>
  match find (Contains command) injectionPatterns with
  | Some pattern =>
      Some ("command contains injection pattern: " +:+ pattern)
  | None =>
  let path_refused :=
    if filepath_IsAbs command then
      let commandDir := filepath_Dir command in
      if existsb (fun path => HasPrefix commandDir path) (allowedPaths ce)
      then None
      else Some ("command path not in allowed paths: " +:+ commandDir)
    else None in
  match path_refused with
  | Some err => Some err
  | None =>
  match whitelist ce with
  | Some wl =>
      if existsb (fun allowedCmd =>
                    String.eqb command allowedCmd
                    || HasPrefix command (allowedCmd +:+ " ")) wl
      then None
      else Some ("command not in whitelist: " +:+ command)
  | None => None
  end end end end.

(** [checkRateLimit] checks if the command execution should be allowed
    based on rate limiting; [now] is its reading of the clock. *)
Definition checkRateLimit (ce : CommandExecutor) (key : string) (now : Z)
  : CommandExecutor * option string :=
  let timestamps := default [] (rateLimitTracker ce !! key) in
  let validTimestamps :=
    filter (fun ts => (now - ts < rateLimitWindow ce)%Z) timestamps in
  if (rateLimit ce <=? Z.of_nat (length validTimestamps))%Z then
    (ce, Some ("rate limit exceeded: " +:+ fmt_d (rateLimit ce)
               +:+ " commands per " +:+ Duration_String (rateLimitWindow ce)))
  else
    (set_rateLimitTracker
       (<[key := validTimestamps ++ [now]]> (rateLimitTracker ce)) ce,
     None).

(** The deferred [ce.concurrentSemaphore <- struct{}{}]. *)
Definition release (ce : CommandExecutor) : CommandExecutor :=
  set_concurrentSemaphore (S (concurrentSemaphore ce)) ce.

(** An environment entry the executor refuses. *)
Definition invalid_env (kv : string * string) : bool :=
  ContainsAny kv.1 (LF +:+ CR) || ContainsAny kv.2 (LF +:+ CR).

(** [ExecuteCommand], first half: from "Set default timeout" to "Set
    environment variables".  [Running cmd] leaves one semaphore token
    taken; every [Refused] leaves none taken (the refusal on the
    environment returns through the deferred release).  The map [Env] is
    walked in the order of [map_to_list]; Go leaves that order open. *)
Definition enter (ce : CommandExecutor) (req : CommandRequest)
    (clientKey : string) (a : Arrival) : CommandExecutor * Admission :=
  let timeout := effectiveTimeout (Timeout req) in
  match ValidateCommand ce (Command req) with
  | Some err =>
      (ce, Refused (refusal ("command validation failed: " +:+ err)))
  | None =>
  match checkRateLimit ce clientKey (arr_now a) with
  | (ce, Some err) => (ce, Refused (refusal err))
  | (ce, None) =>
  match concurrentSemaphore ce with
  | O => (ce, Refused (refusal
                "maximum concurrent command execution limit reached"))
  | S free =>
      let ce := set_concurrentSemaphore free ce in
      let dir := if String.eqb (Workdir req) EmptyString then EmptyString
                 else Workdir req in
      let cmd env := {| Path := Command req;
                        cmd_Args := Command req :: Args req;
                        cmd_Dir := dir; cmd_Env := env;
                        cmd_Timeout := timeout |} in
      match Env req with
      | None => (ce, Running (cmd None))
      | Some m =>
          if existsb invalid_env (map_to_list m) then
            (release ce, Refused (refusal
               "environment variable contains invalid characters"))
          else
            (ce, Running (cmd (Some (arr_environ a ++
                    map (fun kv => kv.1 +:+ "=" +:+ kv.2) (map_to_list m)))))
      end
  end end end.

(** "Determine exit code": the [ExitCode] and [Error] of the response. *)
Definition outcome (r : RunResult) : Z * string :=
  match run_err r with
  | NoError => (0%Z, EmptyString)
  | ExitError code msg =>
      if deadline_exceeded r then ((-2)%Z, "command execution timed out")
      else (code, msg)
  | OtherError notExist msg =>
      if notExist then (127%Z, "command not found")
      else ((-1)%Z, msg)
  end.

(** [ExecuteCommand], second half: from "Capture stdout and stderr with
    size limits" to the end; [startTime] is the local of that name. *)
Definition complete (ce : CommandExecutor) (req : CommandRequest)
    (cmd : Cmd) (startTime : Z) (r : RunResult)
  : CommandExecutor * CommandResponse * list Event :=
  let stdoutWriter :=
    Writes (new_limitedWriter (maxOutputSize ce)) (stdout_writes r) in
  let stderrWriter :=
    Writes (new_limitedWriter (maxOutputSize ce)) (stderr_writes r) in
  let duration := since_start r in
  let response :=
    {| ExitCode := (outcome r).1;
       Stdout := string_of_list_byte (writer stdoutWriter);
       Stderr := string_of_list_byte (writer stderrWriter);
       Error := (outcome r).2;
       Duration := (duration ÷ 1000000)%Z |} in
  let ce := addToHistory ce
    {| entry_Command := Command req; entry_Args := Args req;
       Timestamp := startTime; entry_Duration := duration;
       entry_ExitCode := ExitCode response;
       entry_Workdir := Workdir req |} in
  (release ce, response,
   [EvRun cmd;
    EvLog (Command req) (Args req) (ExitCode response) duration (Workdir req)]).

(** [ExecuteCommand] executes a system command with the given parameters:
    the executor afterwards, the response, and what was asked of the
    host. *)
Definition ExecuteCommand (ce : CommandExecutor) (req : CommandRequest)
    (clientKey : string) (a : Arrival) (r : RunResult)
  : CommandExecutor * CommandResponse * list Event :=
  match enter ce req clientKey a with
  | (ce, Refused resp) => (ce, resp, [])
  | (ce, Running cmd) => complete ce req cmd (arr_start a) r
  end.

(** An attempt reaches the execution stage when none of the four checks
    before the run refuses it. *)
Definition reaches_execution (ce : CommandExecutor) (req : CommandRequest)
    (clientKey : string) (a : Arrival) : bool :=
  match enter ce req clientKey a with
  | (_, Running _) => true
  | (_, Refused _) => false
  end.

(** Whether a trace contains a call of [cmd.Run()]. *)
Definition spawns (tr : list Event) : bool :=
  existsb (fun ev => match ev with EvRun _ => true | _ => false end) tr.

(** A burst of calls of [checkRateLimit] for one key, at the given
    readings of the clock: the executor afterwards and, per call,
    whether it passed. *)
Fixpoint burst (ce : CommandExecutor) (key : string) (times : list Z)
  : CommandExecutor * list bool :=
  match times with
  | [] => (ce, [])
  | now :: rest =>
      let (ce1, err) := checkRateLimit ce key now in
      let (ce2, passed) := burst ce1 key rest in
      (ce2, bool_decide (err = None) :: passed)
  end.

(** The history entry [ExecuteCommand] records for a run. *)
Definition entry_of (req : CommandRequest) (startTime : Z) (r : RunResult)
  : CommandHistoryEntry :=
  {| entry_Command := Command req; entry_Args := Args req;
     Timestamp := startTime; entry_Duration := since_start r;
     entry_ExitCode := (outcome r).1; entry_Workdir := Workdir req |}.

(** The check of "Set environment variables" refuses the request. *)
Definition env_refused (req : CommandRequest) : bool :=
  match Env req with
  | Some m => existsb invalid_env (map_to_list m)
  | None => false
  end.

(** *** Executions in flight

    Several calls of [ExecuteCommand] run at once.  Between two accesses
    to the shared executor - the tracker under its mutex, the semaphore
    channel, the history under its mutex - a call stands at one of three
    places: [Limited], counted by the rate limiter and about to try the
    semaphore; [Holding], with a token taken; [Leaving], with its response
    decided and the deferred release still to run.  A call refused by
    validation touches nothing and takes no step. *)
Inductive Attempt :=
| Limited (req : CommandRequest) (a : Arrival)
| Holding (req : CommandRequest) (a : Arrival)
| Leaving.

Definition holds_slot (t : Attempt) : bool :=
  match t with
  | Limited _ _ => false
  | Holding _ _ | Leaving => true
  end.

(** The number of tokens the calls in flight hold. *)
Definition slots_held (ts : list Attempt) : nat :=
  length (List.filter holds_slot ts).

Inductive step : CommandExecutor * list Attempt ->
                 CommandExecutor * list Attempt -> Prop :=
| step_rate_limit ce ts req key a :
    ValidateCommand ce (Command req) = None ->
    step (ce, ts)
         ((checkRateLimit ce key (arr_now a)).1,
          match (checkRateLimit ce key (arr_now a)).2 with
          | Some _ => ts
          | None => Limited req a :: ts
          end)
| step_full ce ts1 req a ts2 :
    concurrentSemaphore ce = 0 ->
    step (ce, ts1 ++ Limited req a :: ts2) (ce, ts1 ++ ts2)
| step_acquire ce ts1 req a ts2 free :
    concurrentSemaphore ce = S free ->
    step (ce, ts1 ++ Limited req a :: ts2)
         (set_concurrentSemaphore free ce, ts1 ++ Holding req a :: ts2)
| step_env_refused ce ts1 req a ts2 :
    env_refused req = true ->
    step (ce, ts1 ++ Holding req a :: ts2) (ce, ts1 ++ Leaving :: ts2)
| step_ran ce ts1 req a ts2 r :
    env_refused req = false ->
    step (ce, ts1 ++ Holding req a :: ts2)
         (addToHistory ce (entry_of req (arr_start a) r), ts1 ++ Leaving :: ts2)
| step_leave ce ts1 ts2 :
    step (ce, ts1 ++ Leaving :: ts2) (release ce, ts1 ++ ts2).

(** The states an agent can be in, starting from the executor [ce0] with
    no call in flight. *)
Definition reachable (ce0 : CommandExecutor)
    (s : CommandExecutor * list Attempt) : Prop :=
  rtc step (ce0, []) s.

End Executor.

(** ** The runtime on Unix

    The three library functions as Go's standard library defines them for
    Unix paths ([path/filepath]) and for durations ([time]); they make the
    executor runnable on concrete requests. *)
Module Unix.

Definition isSep (c : ascii) : bool := Ascii.eqb c "/".
Definition isDot (c : ascii) : bool := Ascii.eqb c ".".

(** [filepath.IsAbs]: the path begins with a slash. *)
Definition IsAbs (path : string) : bool := HasPrefix path "/".

(** The ".." case of [Clean] when it can backtrack: [out.w--], then
    [for out.w > dotdot && !sep(out[out.w]) { out.w-- }].  The buffer is
    kept last byte first. *)
Fixpoint backtrack (out : list ascii) (dotdot : nat) : list ascii :=
  match out with
  | [] => []
  | c :: rest =>
      if (dotdot <? length rest) && negb (isSep c)
      then backtrack rest dotdot
      else rest
  end.

(** Splits off the bytes before the next separator. *)
Fixpoint element (p : list ascii) : list ascii * list ascii :=
  match p with
  | [] => ([], [])
  | c :: p' =>
      if isSep c then ([], p)
      else let (e, rest) := element p' in (c :: e, rest)
  end.

(** The main loop of [Clean]: [p] is the unread part of the path, [out]
    the output buffer last byte first.  Every turn consumes input, so the
    length of the path is fuel enough. *)
Fixpoint cleanLoop (fuel : nat) (rooted : bool) (p out : list ascii)
    (dotdot : nat) : list ascii :=
  match fuel with
  | O => out
  | S fuel =>
      match p with
      | [] => out
      | c :: p1 =>
          if isSep c then cleanLoop fuel rooted p1 out dotdot
          else if isDot c &&
                  match p1 with [] => true | c1 :: _ => isSep c1 end
          then cleanLoop fuel rooted p1 out dotdot
          else if isDot c &&
                  match p1 with
                  | c1 :: p2 =>
                      isDot c1 &&
                      match p2 with [] => true | c2 :: _ => isSep c2 end
                  | [] => false
                  end
          then
            let p2 := drop 1 p1 in
            if dotdot <? length out
            then cleanLoop fuel rooted p2 (backtrack out dotdot) dotdot
            else if negb rooted then
              let out1 := if 0 <? length out then "/"%char :: out else out in
              let out2 := "."%char :: "."%char :: out1 in
              cleanLoop fuel rooted p2 out2 (length out2)
            else cleanLoop fuel rooted p2 out dotdot
          else
            let out1 :=
              if (rooted && negb (length out =? 1))
                 || (negb rooted && negb (length out =? 0))
              then "/"%char :: out else out in
            let (e, rest) := element p in
            cleanLoop fuel rooted rest (rev e ++ out1) dotdot
      end
  end.

(** [filepath.Clean]. *)
Definition Clean (path : string) : string :=
  match list_ascii_of_string path with
  | [] => "."
  | c :: p1 =>
      let rooted := isSep c in
      let out :=
        if rooted then cleanLoop (S (length p1)) true p1 ["/"%char] 1
        else cleanLoop (S (length p1)) false (c :: p1) [] 0 in
      match out with
      | [] => "."
      | _ => string_of_list_ascii (rev out)
      end
  end.

(** The path up to and including its last separator. *)
Fixpoint upToLastSep (p : list ascii) : list ascii :=
  match p with
  | [] => []
  | c :: p' =>
      match upToLastSep p' with
      | [] => if isSep c then [c] else []
      | q => c :: q
      end
  end.

(** [filepath.Dir]: all but the last element of the path, cleaned. *)
Definition Dir (path : string) : string :=
  Clean (string_of_list_ascii (upToLastSep (list_ascii_of_string path))).

Definition digit (v : Z) : ascii := ascii_of_nat (48 + Z.to_nat (v mod 10)).

(** [fmtFrac]: the fraction of [v/10^prec] written before [buf], without
    trailing zeros, and the value [v/10^prec]. *)
Fixpoint fmtFrac (prec : nat) (print : bool) (buf : string) (v : Z)
  : string * Z :=
  match prec with
  | O => (if print then String "." buf else buf, v)
  | S prec =>
      let print := print || negb (v mod 10 =? 0)%Z in
      fmtFrac prec print (if print then String (digit v) buf else buf)
              (v / 10)%Z
  end.

Fixpoint fmtIntLoop (fuel : nat) (buf : string) (v : Z) : string :=
  match fuel with
  | O => buf
  | S fuel =>
      if (0 <? v)%Z then fmtIntLoop fuel (String (digit v) buf) (v / 10)%Z
      else buf
  end.

(** [fmtInt]: [v] written before [buf]; a 64-bit value has at most 20
    digits. *)
Definition fmtInt (buf : string) (v : Z) : string :=
  if (v =? 0)%Z then String "0" buf else fmtIntLoop 20 buf v.

(** [time.Duration.String], as in "1m0s", "1.5s", "250ms". *)
Definition DurationString (d : Z) : string :=
  let u := Z.abs d in
  let body :=
    if (u <? Second)%Z then
      if (u =? 0)%Z then "0s"
      else
        let '(prec, unit) :=
          if (u <? 1000)%Z then (0, "ns")
          else if (u <? 1000000)%Z
               then (3, String (ascii_of_nat 194)
                          (String (ascii_of_nat 181) "s"))
               else (6, "ms") in
        let (buf, u) := fmtFrac prec false unit u in
        fmtInt buf u
    else
      let (buf, u) := fmtFrac 9 false "s" u in
      let buf := fmtInt buf (u mod 60) in
      let u := (u / 60)%Z in
      if (0 <? u)%Z then
        let buf := fmtInt (String "m" buf) (u mod 60) in
        let u := (u / 60)%Z in
        if (0 <? u)%Z then fmtInt (String "h" buf) u else buf
      else buf in
  if (d <? 0)%Z then String "-" body else body.

#[export] Instance runtime : GoRuntime :=
  {| filepath_IsAbs := IsAbs;
     filepath_Dir := Dir;
     Duration_String := DurationString |}.

End Unix.

Export Unix.

(** ** Reference configurations *)

(** The executor [NewCommandExecutor] builds when no option is set in the
    environment. *)
Definition production_executor : CommandExecutor :=
  {| whitelist := Some default_whitelist; blacklist := dangerous_commands;
     allowedPaths := default_allowedPaths;
     history := []; rateLimitTracker := ∅;
     concurrentSemaphore := 5;
     maxOutputSize := 1024 * 1024; maxConcurrent := 5;
     rateLimit := 10; rateLimitWindow := Minute |}.

(** The same with [COMMAND_WHITELIST=allow_all]. *)
Definition allow_all_executor : CommandExecutor :=
  set_whitelist None production_executor.

(** A request that names a command and leaves everything else unset. *)
Definition command_only (command : string) : CommandRequest :=
  {| Command := command; Args := []; Timeout := 0; Workdir := EmptyString;
     Env := None |}.

(** A host clock reading [t] nanoseconds at arrival. *)
Definition arrival_at (t : Z) : Arrival :=
  {| arr_start := t; arr_now := t; arr_environ := ["PATH=/usr/bin:/bin"] |}.

(** A child that prints [out] and exits with status 0 after [d] ns. *)
Definition run_ok (out : list byte) (d : Z) : RunResult :=
  {| stdout_writes := [out]; stderr_writes := []; run_err := NoError;
     deadline_exceeded := false; since_start := d |}.

(** A start that fails because the file to execute is missing. *)
Definition run_missing : RunResult :=
  {| stdout_writes := []; stderr_writes := [];
     run_err := OtherError true "no such file or directory";
     deadline_exceeded := false; since_start := 1000000 |}.

(** The production executor with [n] executions of "/bin/sleep 60" in
    flight, started one nanosecond apart. *)
Fixpoint sleepers (n : nat) : CommandExecutor :=
  match n with
  | O => production_executor
  | S n => (enter (sleepers n)
              {| Command := "/bin/sleep"; Args := ["60"]; Timeout := 120;
                 Workdir := EmptyString; Env := None |}
              "default" (arrival_at (Z.of_nat n))).1
  end.

(** The production executor after one run of "/bin/ls". *)
Definition after_one_run : CommandExecutor :=
  (ExecuteCommand production_executor (command_only "/bin/ls") "default"
     (arrival_at 0) (run_ok [] 2000000)).1.1.

(** "/usr/bin/env" asked for with one variable and a working directory. *)
Definition env_request : CommandRequest :=
  {| Command := "/usr/bin/env"; Args := ["-0"]; Timeout := 10;
     Workdir := "/tmp"; Env := Some {[ "TEST_VAR" := "test_value" ]} |}.

(** The same with a line feed in the value, as in
    [TestCommandExecutor_EnvironmentVariableInjection]. *)
Definition env_injection_request : CommandRequest :=
  {| Command := "/usr/bin/env"; Args := []; Timeout := 10;
     Workdir := EmptyString;
     Env := Some {[ "TEST_VAR" := "test" +:+ LF +:+ "value" ]} |}.

(** A child killed at its deadline after [d] ns. *)
Definition run_timed_out (d : Z) : RunResult :=
  {| stdout_writes := []; stderr_writes := [];
     run_err := ExitError (-1) "signal: killed";
     deadline_exceeded := true; since_start := d |}.

(** A request to print "hello" with no newline after it. *)
Definition echo_hello_request : CommandRequest :=
  {| Command := "/bin/echo"; Args := ["-n"; "hello"]; Timeout := 0;
     Workdir := EmptyString; Env := None |}.

(** The run of a child that printed [out] in one piece and exited with
    status 0 while the sink on its standard output reported fewer bytes
    written than it was handed, with a nil error: the copy loop of package
    [os/exec] ([io.Copy]) stops there with [io.ErrShortWrite], and
    [cmd.Run()] returns that error, which is no [*exec.ExitError] and which
    [os.IsNotExist] does not recognise. *)
Definition run_short_write (out : list byte) : RunResult :=
  {| stdout_writes := [out]; stderr_writes := [];
     run_err := OtherError false "short write";
     deadline_exceeded := false; since_start := 1000000 |}.

(** A start that fails because the bare name [name] is in no directory of
    $PATH: [cmd.Run()] returns the [*exec.Error] of [exec.LookPath], whose
    text is [exec: "name": executable file not found in $PATH];
    [os.IsNotExist] does not look inside an [*exec.Error] and says no. *)
Definition run_not_in_PATH (name : string) : RunResult :=
  {| stdout_writes := []; stderr_writes := [];
     run_err := OtherError false
                  ("exec: " +:+ DQUOTE +:+ name +:+ DQUOTE +:+
                   ": executable file not found in $PATH");
     deadline_exceeded := false; since_start := 1000000 |}.

(** A request to list the directory [dir], given as working directory. *)
Definition ls_in (dir : string) : CommandRequest :=
  {| Command := "/bin/ls"; Args := []; Timeout := 0; Workdir := dir;
     Env := None |}.

(** A start that fails because the working directory [dir] does not exist,
    the executable being where it should: [cmd.Run()] returns the
    [*fs.PathError] of the chdir, which [os.IsNotExist] recognises. *)
Definition run_missing_workdir (dir : string) : RunResult :=
  {| stdout_writes := []; stderr_writes := [];
     run_err := OtherError true
                  ("chdir " +:+ dir +:+ ": no such file or directory");
     deadline_exceeded := false; since_start := 1000000 |}.

(** ** Vocabulary of the properties *)

Section Vocabulary.

Context {rt : GoRuntime}.

(** The four ways a command string fails validation: a blacklist
    substring, an injection pattern, an absolute path whose directory has
    no allowed prefix, a whitelist that it misses. *)
Definition fails_validation (ce : CommandExecutor) (command : string) : Prop :=
  (exists p, In p (blacklist ce) /\ Contains command p = true)
  \/ (exists p, In p injectionPatterns /\ Contains command p = true)
  \/ (filepath_IsAbs command = true /\
      forall path, In path (allowedPaths ce) ->
                   HasPrefix (filepath_Dir command) path = false)
  \/ (exists wl, whitelist ce = Some wl /\
      forall allowedCmd, In allowedCmd wl ->
        command <> allowedCmd /\
        HasPrefix command (allowedCmd +:+ " ") = false).

End Vocabulary.

(** The [n] most recent entries of a history, oldest first. *)
Definition most_recent {A} (n : nat) (h : list A) : list A :=
  drop (length h - n) h.


(** The fields fixed at construction, and the history. *)
Definition same_config (ce ce' : CommandExecutor) : Prop :=
  whitelist ce' = whitelist ce /\ blacklist ce' = blacklist ce /\
  allowedPaths ce' = allowedPaths ce /\ history ce' = history ce /\
  maxOutputSize ce' = maxOutputSize ce /\
  maxConcurrent ce' = maxConcurrent ce /\
  rateLimit ce' = rateLimit ce /\ rateLimitWindow ce' = rateLimitWindow ce.

(** The timestamps of [key] that [checkRateLimit] keeps at time [now]. *)
Definition validTimestamps (ce : CommandExecutor) (key : string) (now : Z)
  : list Z :=
  filter (fun ts => (now - ts < rateLimitWindow ce)%Z)
         (default [] (rateLimitTracker ce !! key)).

(** Checks a property of every member of a concrete list by running it. *)
Ltac each_member :=
  let x := fresh "x" in
  let Hin := fresh "Hin" in
  intros x Hin; simpl in Hin;
  repeat (destruct Hin as [<- | Hin]; [vm_compute; done |]);
  destruct Hin.

(** ** The agent's entry points

    Of the [Agent] struct the executor's file uses one field, the lazily
    built [commandExecutor] ([None] is the nil pointer). *)
Record Agent := {
  commandExecutor : option CommandExecutor
}.

(** What an entry point asks of the host: the
    [slog.Info("Command execution requested", ...)] record, then what the
    executor asks. *)
Inductive AgentEvent :=
| AgRequested (command : string) (args : list string)
| AgExecutor (ev : Event).

Section AgentMethods.

Context {rt : GoRuntime}.

Variable GetEnv : string -> option string.
Variable json_Unmarshal : string -> option (list string).
Variable strings_TrimSpace : string -> string.
Variable Sscanf_d : string -> option Z.

(** [if a.commandExecutor == nil { a.commandExecutor = NewCommandExecutor() }]:
    the executor the method goes on with; [None] when the constructor
    never returns. *)
Definition ensureExecutor (a : Agent) : option CommandExecutor :=
  match commandExecutor a with
  | Some ce => Some ce
  | None => NewCommandExecutor GetEnv json_Unmarshal strings_TrimSpace Sscanf_d
  end.

(** [Agent.ExecuteCommand]: the rate-limit key is the constant "default". *)
Definition Agent_ExecuteCommand (a : Agent) (req : CommandRequest)
    (arr : Arrival) (r : RunResult)
  : option (Agent * CommandResponse * list AgentEvent) :=
  match ensureExecutor a with
  | None => None
  | Some ce =>
      let clientKey := "default" in
      let '(ce', resp, tr) := ExecuteCommand ce req clientKey arr r in
      Some ({| commandExecutor := Some ce' |}, resp,
            AgRequested (Command req) (Args req) :: map AgExecutor tr)
  end.

(** [Agent.ValidateCommand]. *)
Definition Agent_ValidateCommand (a : Agent) (command : string)
  : option (Agent * option string) :=
  match ensureExecutor a with
  | None => None
  | Some ce => Some ({| commandExecutor := Some ce |}, ValidateCommand ce command)
  end.

(** [Agent.GetCommandHistory]; its error result is always nil. *)
Definition GetCommandHistory (a : Agent) (limit : Z)
  : list CommandHistoryEntry :=
  match commandExecutor a with
  | None => []
  | Some ce => GetHistory ce limit
  end.

End AgentMethods.

(** A sequence of [addToHistory], in order. *)
Definition addAllToHistory (ce : CommandExecutor)
    (entries : list CommandHistoryEntry) : CommandExecutor :=
  fold_left addToHistory entries ce.

(** The counts a sequence of [Write] calls returns, in order. *)
Fixpoint WriteCounts (lw : limitedWriter) (ps : list (list byte)) : list Z :=
  match ps with
  | [] => []
  | p :: ps => (Write lw p).1.2 :: WriteCounts (Write lw p).1.1 ps
  end.

(** ** Package [db]: connection string and tenant context *)

Section PostgresDSN.

(** [os.Getenv]: the value of a variable, empty when it is not set. *)
Variable os_Getenv : string -> string.

(** [getEnv] retrieves an environment variable or returns a default
    value. *)
Definition getEnv (key defaultValue : string) : string :=
  let value := os_Getenv key in
  if negb (String.eqb value EmptyString) then value else defaultValue.

(** [getPostgresDSN] retrieves the PostgreSQL connection string from
    environment variables. *)
Definition getPostgresDSN : string :=
  if negb (String.eqb (os_Getenv "SONAR_HUB_POSTGRES_DSN") EmptyString)
  then os_Getenv "SONAR_HUB_POSTGRES_DSN"
  else if negb (String.eqb (os_Getenv "DATABASE_URL") EmptyString)
  then os_Getenv "DATABASE_URL"
  else
    let host := getEnv "SONAR_HUB_POSTGRES_HOST" "localhost" in
    let port := getEnv "SONAR_HUB_POSTGRES_PORT" "5432" in
    let user := getEnv "SONAR_HUB_POSTGRES_USER" "sonar" in
    let password := getEnv "SONAR_HUB_POSTGRES_PASSWORD" EmptyString in
    let dbname := getEnv "SONAR_HUB_POSTGRES_DB" "sonar" in
    let sslmode := getEnv "SONAR_HUB_POSTGRES_SSLMODE" "disable" in
    if String.eqb password EmptyString then EmptyString
    else "host=" +:+ host +:+ " port=" +:+ port +:+ " user=" +:+ user
         +:+ " password=" +:+ password +:+ " dbname=" +:+ dbname
         +:+ " sslmode=" +:+ sslmode.

End PostgresDSN.

(** The keys of a [context.Context]: the two of package [db] (of the
    unexported type [contextKey], so no other package can use them), and
    those of anyone else. *)
Inductive ctxKey :=
| tenantContextKey
| schemaContextKey
| foreignKey (name : string).

(** A value held by a context: a string, or something of another type. *)
Inductive ctxValue :=
| StringValue (s : string)
| OtherValue.

(** A [context.Context] as far as [Value] goes: the pairs added by
    [context.WithValue], the latest first. *)
Definition GoContext : Type := list (ctxKey * ctxValue).

Definition ctxKey_eqb (k1 k2 : ctxKey) : bool :=
  match k1, k2 with
  | tenantContextKey, tenantContextKey => true
  | schemaContextKey, schemaContextKey => true
  | foreignKey n1, foreignKey n2 => String.eqb n1 n2
  | _, _ => false
  end.

(** [context.WithValue(ctx, key, val)]. *)
Definition WithValue (ctx : GoContext) (key : ctxKey) (val : ctxValue)
  : GoContext := (key, val) :: ctx.

(** [ctx.Value(key)]: the value added last for the key, [None] for nil. *)
Fixpoint Value (ctx : GoContext) (key : ctxKey) : option ctxValue :=
  match ctx with
  | [] => None
  | (k, v) :: ctx' => if ctxKey_eqb k key then Some v else Value ctx' key
  end.

(** [ctx.Value(key).(string)]: the string and whether the assertion
    holds. *)
Definition Value_string (ctx : GoContext) (key : ctxKey) : string * bool :=
  match Value ctx key with
  | Some (StringValue s) => (s, true)
  | _ => (EmptyString, false)
  end.

(** [TenantContext] holds tenant information for a request. *)
Record TenantContext := {
  TenantID : string;
  SchemaName : string
}.

(** [WithTenantContext] adds tenant information to the context. *)
Definition WithTenantContext (ctx : GoContext) (tenantID schemaName : string)
  : GoContext :=
  let ctx := WithValue ctx tenantContextKey (StringValue tenantID) in
  let ctx := WithValue ctx schemaContextKey (StringValue schemaName) in
  ctx.

(** [GetTenantFromContext] retrieves tenant information from the
    context: the tenant, or the text of the error. *)
Definition GetTenantFromContext (ctx : GoContext) : TenantContext + string :=
  let '(tenantID, ok) := Value_string ctx tenantContextKey in
  if negb ok || String.eqb tenantID EmptyString
  then inr "tenant ID not found in context"
  else
    let '(schemaName, ok) := Value_string ctx schemaContextKey in
    if negb ok || String.eqb schemaName EmptyString
    then inr "schema name not found in context"
    else inl {| TenantID := tenantID; SchemaName := schemaName |}.

(** [WithTenantSchema]: the statements handed to [db.Exec], and the
    returned error.  The outcome of the statement stays inside the
    returned handle; the function does not look at it. *)
Definition WithTenantSchema (ctx : GoContext) : list string * option string :=
  match GetTenantFromContext ctx with
  | inr err => ([], Some err)
  | inl tenant => (["SET search_path TO " +:+ SchemaName tenant], None)
  end.

(** [GetTenantDB]: the same on the global [DB]; [initialized] is
    [DB != nil]. *)
Definition GetTenantDB (initialized : bool) (ctx : GoContext)
  : list string * option string :=
  if negb initialized then ([], Some "database not initialized")
  else
    match GetTenantFromContext ctx with
    | inr err => ([], Some err)
    | inl tenant => (["SET search_path TO " +:+ SchemaName tenant], None)
    end.

(** ** Package [db]: tenants and their schemas *)

(** [Tenant] represents a tenant in the multi-tenant system. *)
Record Tenant := {
  ID : string;
  Name : string;
  tenant_SchemaName : string;
  Active : bool;
  CreatedAt : Z;
  UpdatedAt : Z
}.

(** What the functions ask of the database and of the log, in order:
    [db.Exec(sql)], [db.Create(tenant)], [db.Delete(tenant)], and
    [slog.Info(msg, "schema", schema)]. *)
Inductive DBEvent :=
| DbExec (sql : string)
| DbCreate (t : Tenant)
| DbDelete (t : Tenant)
| DbInfo (msg schema : string).

(** The statement that creates the placeholder systems table. *)
Definition createSystemsTable (schemaName : string) : string :=
  LF +:+ TAB +:+ TAB +:+ "CREATE TABLE IF NOT EXISTS " +:+ schemaName
     +:+ ".systems (" +:+
  LF +:+ TAB +:+ TAB +:+ TAB +:+ "id VARCHAR(255) PRIMARY KEY," +:+
  LF +:+ TAB +:+ TAB +:+ TAB +:+ "name VARCHAR(255) NOT NULL," +:+
  LF +:+ TAB +:+ TAB +:+ TAB +:+ "host VARCHAR(255)," +:+
  LF +:+ TAB +:+ TAB +:+ TAB +:+ "port INTEGER," +:+
  LF +:+ TAB +:+ TAB +:+ TAB +:+ "created_at BIGINT," +:+
  LF +:+ TAB +:+ TAB +:+ TAB +:+ "updated_at BIGINT" +:+
  LF +:+ TAB +:+ TAB +:+ ")" +:+
  LF +:+ TAB.

Section Tenants.

(** The database as these functions meet it: the error of executing a
    statement ([None] for success), and what [db.Create] makes of a tenant
    record - the stored record with the fields the database fills in, or an
    error.  Within one call no statement is executed twice, so answering per
    statement loses nothing. *)
Variable db_Exec : string -> option string.
Variable db_Create : Tenant -> Tenant + string.

(** [CreateTenantSchema] creates a new tenant-specific schema with all
    required tables. *)
Definition CreateTenantSchema (schemaName : string)
  : list DBEvent * option string :=
  let createSchema := "CREATE SCHEMA IF NOT EXISTS " +:+ schemaName in
  match db_Exec createSchema with
  | Some err =>
      ([DbExec createSchema],
       Some ("failed to create schema " +:+ schemaName +:+ ": " +:+ err))
  | None =>
      match db_Exec (createSystemsTable schemaName) with
      | Some err =>
          ([DbExec createSchema; DbExec (createSystemsTable schemaName)],
           Some ("failed to create systems table in schema " +:+ schemaName
                 +:+ ": " +:+ err))
      | None =>
          ([DbExec createSchema; DbExec (createSystemsTable schemaName);
            DbInfo "Tenant schema created" schemaName], None)
      end
  end.

(** [DropTenantSchema] drops a tenant-specific schema. *)
Definition DropTenantSchema (schemaName : string)
  : list DBEvent * option string :=
  let dropSchema := "DROP SCHEMA IF EXISTS " +:+ schemaName +:+ " CASCADE" in
  match db_Exec dropSchema with
  | Some err =>
      ([DbExec dropSchema],
       Some ("failed to drop schema " +:+ schemaName +:+ ": " +:+ err))
  | None =>
      ([DbExec dropSchema; DbInfo "Tenant schema dropped" schemaName], None)
  end.

(** [CreateTenant] creates a new tenant and its schema: what was asked of
    the database, and the tenant or the error. *)
Definition CreateTenant (name schemaName : string)
  : list DBEvent * (Tenant + string) :=
  let tenant := {| ID := EmptyString; Name := name;
                   tenant_SchemaName := schemaName; Active := true;
                   CreatedAt := 0; UpdatedAt := 0 |} in
  match db_Create tenant with
  | inr err => ([DbCreate tenant], inr ("failed to create tenant: " +:+ err))
  | inl stored =>
      match CreateTenantSchema schemaName with
      | (evs, Some err) =>
          (DbCreate tenant :: evs ++ [DbDelete stored], inr err)
      | (evs, None) => (DbCreate tenant :: evs, inl stored)
      end
  end.

End Tenants.

(** The string holds a line feed or a carriage return. *)
Definition has_line_break (s : string) : Prop :=
  In (ascii_of_nat 10) (list_ascii_of_string s) \/
  In (ascii_of_nat 13) (list_ascii_of_string s).

(** The rendering of the requested environment, [fmt.Sprintf("%s=%s", k, v)]
    in the order the map is walked. *)
Definition env_entries (m : gmap string string) : list string :=
  map (fun kv => kv.1 +:+ "=" +:+ kv.2) (map_to_list m).

(** * Properties *)

(** ** Strings *)

Lemma HasPrefix_spec (s pre : string) :
  HasPrefix s pre = true <-> exists t, s = pre +:+ t.
Proof.
  unfold HasPrefix. revert s. induction pre as [|a pre IH]; intros s.
  - destruct s; simpl; split; eauto.
  - destruct s as [|b s]; simpl.
    + split; [discriminate | intros [t Ht]; discriminate].
    + destruct (ascii_dec a b) as [->|Hne].
      * rewrite IH. split; intros [t Ht]; exists t; [by rewrite Ht | by injection Ht].
      * split; [discriminate | intros [t Ht]; injection Ht; congruence].
Qed.

Lemma Contains_spec (s substr : string) :
  Contains s substr = true <-> exists a b, s = a +:+ substr +:+ b.
Proof.
  induction s as [|c s IH]; cbn [Contains].
  - rewrite orb_false_r, HasPrefix_spec. split.
    + intros [t Ht]. by exists EmptyString, t.
    + intros [[|? a] [b Hab]]; [by exists b | discriminate].
  - rewrite orb_true_iff, IH, HasPrefix_spec. split.
    + intros [[t Ht] | [a [b Hab]]].
      * by exists EmptyString, t.
      * exists (String c a), b. simpl. by rewrite Hab.
    + intros [[|c' a] [b Hab]]; simpl in Hab.
      * left. by exists b.
      * right. injection Hab as _ Hab. by exists a, b.
Qed.

(** ** Validation *)

Section Validation.

Context {rt : GoRuntime}.

Lemma find_None_iff {A} (f : A -> bool) (l : list A) :
  find f l = None <-> forall x, In x l -> f x = false.
Proof.
  split; [apply find_none |].
  induction l as [|x l IH]; simpl; [done |]. intros Hall.
  rewrite (Hall x) by auto. apply IH. auto.
Qed.

Lemma existsb_false_iff {A} (f : A -> bool) (l : list A) :
  existsb f l = false <-> forall x, In x l -> f x = false.
Proof.
  rewrite <- not_true_iff_false, existsb_exists. split.
  - intros Hno x Hx. apply not_true_iff_false. intros Hfx. apply Hno. eauto.
  - intros Hall [x [Hx Hfx]]. rewrite (Hall x Hx) in Hfx. discriminate.
Qed.

(** The command passes exactly when each of the four checks lets it
    through. *)
Lemma ValidateCommand_None (ce : CommandExecutor) (command : string) :
  ValidateCommand ce command = None <->
  find (Contains command) (blacklist ce) = None /\
  find (Contains command) injectionPatterns = None /\
  (filepath_IsAbs command = true ->
   existsb (fun path => HasPrefix (filepath_Dir command) path)
           (allowedPaths ce) = true) /\
  (forall wl, whitelist ce = Some wl ->
   existsb (fun allowedCmd => String.eqb command allowedCmd
              || HasPrefix command (allowedCmd +:+ " ")) wl = true).
Proof.
  unfold ValidateCommand.
  destruct (find _ (blacklist ce)) eqn:Hb; [split; [done | intros [? _]; done] |].
  destruct (find _ injectionPatterns) eqn:Hi;
    [split; [done | intros (_ & ? & _); done] |].
  destruct (filepath_IsAbs command) eqn:Habs.
  - destruct (existsb _ (allowedPaths ce)) eqn:Hp.
    + destruct (whitelist ce) as [wl|] eqn:Hw.
      * destruct (existsb _ wl) eqn:Hwl.
        -- split; [| done]. intros _. repeat split; try done.
           intros wl' [= <-]. done.
        -- split; [done |]. intros (_ & _ & _ & Hall).
           rewrite (Hall wl eq_refl) in Hwl. done.
      * split; [| done]. intros _. repeat split; done.
    + split; [done |]. intros (_ & _ & Hall & _). by specialize (Hall eq_refl).
  - destruct (whitelist ce) as [wl|] eqn:Hw.
    + destruct (existsb _ wl) eqn:Hwl.
      * split; [| done]. intros _. repeat split; try done.
        intros wl' [= <-]. done.
      * split; [done |]. intros (_ & _ & _ & Hall).
        rewrite (Hall wl eq_refl) in Hwl. done.
    + split; [| done]. intros _. repeat split; done.
Qed.

(** Each of the four ways of failing makes [ValidateCommand] return an
    error, and it returns one in no other case. *)
Lemma ValidateCommand_fails_iff (ce : CommandExecutor) (command : string) :
  fails_validation ce command <-> ValidateCommand ce command <> None.
Proof.
  rewrite ValidateCommand_None. unfold fails_validation. split.
  - intros Hf (Hb & Hi & Hp & Hw).
    rewrite find_None_iff in Hb, Hi.
    destruct Hf as [(p & Hin & Hc) | [(p & Hin & Hc) | [(Habs & Hall) | (wl & Hwl & Hall)]]].
    + rewrite (Hb p Hin) in Hc. done.
    + rewrite (Hi p Hin) in Hc. done.
    + apply existsb_exists in Hp as (path & Hin & Hpre); [| done].
      rewrite (Hall path Hin) in Hpre. done.
    + specialize (Hw wl Hwl). apply existsb_exists in Hw as (a & Hin & Ha).
      destruct (Hall a Hin) as [Hne Hpre]. rewrite Hpre, orb_false_r in Ha.
      apply String.eqb_eq in Ha. done.
  - intros Hnot.
    destruct (find (Contains command) (blacklist ce)) as [p|] eqn:Hb.
    { left. apply find_some in Hb. eauto. }
    destruct (find (Contains command) injectionPatterns) as [p|] eqn:Hi.
    { right; left. apply find_some in Hi. eauto. }
    destruct (filepath_IsAbs command &&
              negb (existsb (fun path => HasPrefix (filepath_Dir command) path)
                            (allowedPaths ce))) eqn:Hp.
    { right; right; left. apply andb_true_iff in Hp as [Habs Hp].
      apply negb_true_iff in Hp. split; [done |].
      by apply existsb_false_iff. }
    destruct (whitelist ce) as [wl|] eqn:Hw.
    + destruct (existsb (fun allowedCmd => String.eqb command allowedCmd
                 || HasPrefix command (allowedCmd +:+ " ")) wl) eqn:Hwl.
      * exfalso. apply Hnot. repeat split; try done.
        -- intros Habs. rewrite Habs in Hp. simpl in Hp.
           by apply negb_false_iff in Hp.
        -- intros wl' [= <-]. done.
      * right; right; right. exists wl. split; [done |].
        intros a Hin. pose proof (proj1 (existsb_false_iff _ _) Hwl a Hin) as Ha.
        apply orb_false_iff in Ha as [Heq Hpre]. split; [| done].
        by apply String.eqb_neq.
    + exfalso. apply Hnot. repeat split; try done.
      intros Habs. rewrite Habs in Hp. simpl in Hp.
      by apply negb_false_iff in Hp.
Qed.

(** A refused command leaves the executor as it was and asks nothing of
    the host. *)
Lemma ExecuteCommand_invalid (ce : CommandExecutor) (req : CommandRequest)
    (key : string) (a : Arrival) (r : RunResult) (err : string) :
  ValidateCommand ce (Command req) = Some err ->
  ExecuteCommand ce req key a r =
    (ce, refusal ("command validation failed: " +:+ err), []).
Proof. intros Hv. unfold ExecuteCommand, enter. by rewrite Hv. Qed.

(** C1: a request whose command string fails validation - it contains a
    blacklist substring, or an injection pattern, or it is an absolute
    path whose directory has no allowed prefix, or it misses the
    whitelist - gets from [ExecuteCommand] a response with exit code -1
    and an error that begins with "command validation failed: ", and
    [cmd.Run()] is not called for it (the trace is empty); the executor
    is left as it was. *)
Theorem validation_failure_never_spawns (ce : CommandExecutor)
    (req : CommandRequest) (key : string) (a : Arrival) (r : RunResult) :
  fails_validation ce (Command req) ->
  exists reason,
    ValidateCommand ce (Command req) = Some reason /\
    ExecuteCommand ce req key a r =
      (ce, refusal ("command validation failed: " +:+ reason), []) /\
    ExitCode (ExecuteCommand ce req key a r).1.2 = (-1)%Z /\
    HasPrefix (Error (ExecuteCommand ce req key a r).1.2)
              "command validation failed: " = true /\
    spawns (ExecuteCommand ce req key a r).2 = false.
Proof.
  intros Hf. apply ValidateCommand_fails_iff in Hf.
  destruct (ValidateCommand ce (Command req)) as [reason|] eqn:Hv; [| done].
  exists reason. rewrite (ExecuteCommand_invalid _ _ _ _ _ _ Hv).
  repeat split. simpl. apply HasPrefix_spec. eauto.
Qed.

End Validation.

Lemma validation_failure_never_spawns_witness :
  fails_validation production_executor "/tmp/script.sh" /\
  ExitCode (ExecuteCommand production_executor (command_only "/tmp/script.sh")
              "default" (arrival_at 0) run_missing).1.2 = (-1)%Z /\
  spawns (ExecuteCommand production_executor (command_only "/tmp/script.sh")
            "default" (arrival_at 0) run_missing).2 = false.
Proof.
  assert (Hf : fails_validation production_executor
                 (Command (command_only "/tmp/script.sh"))).
  { right; right; left. split; [reflexivity |]. each_member. }
  split; [exact Hf |].
  destruct (validation_failure_never_spawns production_executor
              (command_only "/tmp/script.sh") "default" (arrival_at 0)
              run_missing Hf) as (reason & _ & _ & Hcode & _ & Hspawn).
  exact (conj Hcode Hspawn).
Defined.

(** The table of [TestCommandExecutor_ValidateCommand], run on the
    production executor: which commands are refused. *)
Example ValidateCommand_test_table :
  map (fun command =>
         bool_decide (ValidateCommand production_executor command <> None))
      [ "/bin/ls"; "/bin/cat /etc/hosts"; "rm -rf /"; "mkfs.ext4 /dev/sda";
        "dd if=/dev/zero of=/dev/sda"; "shutdown -h now"; "ls; rm -rf /";
        "ls | rm -rf"; "ls & rm -rf"; "echo $(rm -rf)"; "echo `rm -rf`";
        "ls" +:+ LF +:+ "rm -rf"; "/usr/bin/vim"; "/tmp/script.sh" ]
  = [ false; false; true; true; true; true; true; true; true; true; true;
      true; true; true ].
Proof. vm_compute. reflexivity. Qed.

(** The three later checks, each met on its own. *)
Example ValidateCommand_reasons :
  ValidateCommand production_executor "/bin/ls;id" =
    Some "command contains injection pattern: ;" /\
  ValidateCommand production_executor "/tmp/script.sh" =
    Some "command path not in allowed paths: /tmp" /\
  ValidateCommand production_executor "/usr/bin/vim" =
    Some "command not in whitelist: /usr/bin/vim" /\
  ValidateCommand production_executor "ls" =
    Some "command not in whitelist: ls".
Proof. vm_compute. repeat split. Qed.

(** A run of "/bin/echo hi". *)
Example ExecuteCommand_echo :
  (ExecuteCommand production_executor
     {| Command := "/bin/echo"; Args := ["hi"]; Timeout := 5;
        Workdir := EmptyString; Env := None |}
     "default" (arrival_at 0)
     (run_ok (list_byte_of_string ("hi" +:+ LF)) 3000000)).1.2 =
  {| ExitCode := 0; Stdout := "hi" +:+ LF; Stderr := EmptyString;
     Error := EmptyString; Duration := 3 |}.
Proof. vm_compute. reflexivity. Qed.

(** The eleventh request inside a minute is refused by the rate
    limiter. *)
Example checkRateLimit_eleventh :
  (checkRateLimit
     (burst production_executor "default"
        (map (fun i => Z.of_nat i * 1000000)%Z (seq 0 10))).1
     "default" 10000000).2 =
  Some "rate limit exceeded: 10 commands per 1m0s".
Proof. vm_compute. reflexivity. Qed.

Section ValidationOrder.

Context {rt : GoRuntime}.

(** C7, as the code has it: the request with command
    "/bin/ls; rm -rf /" is refused with exit code -1 by the blacklist
    scan, which runs before the injection scan; the error is
    "command validation failed: command contains dangerous pattern: rm -rf"
    and does not contain "injection pattern".  This holds for every
    executor that carries the fixed blacklist. *)
Theorem injection_scenario_hits_blacklist (ce : CommandExecutor)
    (req : CommandRequest) (key : string) (a : Arrival) (r : RunResult) :
  blacklist ce = dangerous_commands ->
  Command req = "/bin/ls; rm -rf /" ->
  ExecuteCommand ce req key a r =
    (ce, refusal
           "command validation failed: command contains dangerous pattern: rm -rf",
     []) /\
  ExitCode (ExecuteCommand ce req key a r).1.2 = (-1)%Z /\
  Contains (Error (ExecuteCommand ce req key a r).1.2) "dangerous pattern" = true /\
  Contains (Error (ExecuteCommand ce req key a r).1.2) "injection pattern" = false.
Proof.
  intros Hb Hc.
  assert (Hv : ValidateCommand ce (Command req) =
               Some "command contains dangerous pattern: rm -rf").
  { unfold ValidateCommand. rewrite Hb, Hc. reflexivity. }
  rewrite (ExecuteCommand_invalid _ _ _ _ _ _ Hv). repeat split.
Qed.

(** C10: a command that is not an absolute path is validated without any
    look at the allowed paths - whatever they are, the verdict is the
    same - and with the allow-all whitelist (nil) it passes as soon as it
    contains no blacklist substring and no injection pattern. *)
Theorem relative_command_skips_path_check (ce : CommandExecutor)
    (command : string) :
  filepath_IsAbs command = false ->
  (forall paths,
     ValidateCommand (set_allowedPaths paths ce) command =
     ValidateCommand ce command) /\
  (whitelist ce = None ->
   (forall p, In p (blacklist ce) -> Contains command p = false) ->
   (forall p, In p injectionPatterns -> Contains command p = false) ->
   ValidateCommand ce command = None).
Proof.
  intros Habs. split.
  - intros paths. unfold ValidateCommand. simpl. by rewrite Habs.
  - intros Hw Hb Hi. apply ValidateCommand_None.
    rewrite !find_None_iff. repeat split; try done.
    + intros Habs'. congruence.
    + intros wl Hwl. congruence.
Qed.

End ValidationOrder.

Lemma injection_scenario_counterexample :
  ~ (ExitCode (ExecuteCommand production_executor
                 (command_only "/bin/ls; rm -rf /") "default"
                 (arrival_at 0) (run_ok [] 0)).1.2 = (-1)%Z /\
     Contains (Error (ExecuteCommand production_executor
                 (command_only "/bin/ls; rm -rf /") "default"
                 (arrival_at 0) (run_ok [] 0)).1.2)
              "injection pattern" = true).
Proof. vm_compute. intros [_ H]. discriminate H. Qed.

Lemma injection_scenario_hits_blacklist_witness :
  Error (ExecuteCommand production_executor
           (command_only "/bin/ls; rm -rf /") "default"
           (arrival_at 0) (run_ok [] 0)).1.2 =
  "command validation failed: command contains dangerous pattern: rm -rf".
Proof.
  destruct (injection_scenario_hits_blacklist production_executor
              (command_only "/bin/ls; rm -rf /") "default" (arrival_at 0)
              (run_ok [] 0) eq_refl eq_refl) as [Heq _].
  rewrite Heq. reflexivity.
Defined.

Lemma relative_command_skips_path_check_witness :
  filepath_IsAbs "ls" = false /\
  ValidateCommand (set_allowedPaths [] allow_all_executor) "ls" =
    ValidateCommand allow_all_executor "ls" /\
  ValidateCommand allow_all_executor "ls" = None.
Proof.
  assert (Hrel : filepath_IsAbs "ls" = false) by reflexivity.
  destruct (relative_command_skips_path_check allow_all_executor "ls" Hrel)
    as [Hskip Hpass].
  split; [exact Hrel |]. split; [apply Hskip |].
  apply Hpass; [reflexivity | each_member | each_member].
Defined.

(** ** Configuration *)

Section ConfigurationFacts.

Variable GetEnv : string -> option string.
Variable json_Unmarshal : string -> option (list string).
Variable strings_TrimSpace : string -> string.
Variable Sscanf_d : string -> option Z.

(** Every executor that is built starts with an empty history and
    tracker, the fixed blacklist, a one-minute window, and as many free
    slots as [maxConcurrent]. *)
Lemma NewCommandExecutor_fresh (ce : CommandExecutor) :
  NewCommandExecutor GetEnv json_Unmarshal strings_TrimSpace Sscanf_d = Some ce ->
  history ce = [] /\ rateLimitTracker ce = ∅ /\
  blacklist ce = dangerous_commands /\ rateLimitWindow ce = Minute /\
  Z.of_nat (concurrentSemaphore ce) = maxConcurrent ce /\
  (0 < rateLimit ce)%Z.
Proof.
  unfold NewCommandExecutor.
  set (executor := loadConfig _ _ _ _ _).
  assert (Hh : history executor = [] /\ rateLimitTracker executor = ∅ /\
               blacklist executor = dangerous_commands /\
               rateLimitWindow executor = Minute /\
               (0 < maxConcurrent executor)%Z /\ (0 < rateLimit executor)%Z).
  { unfold executor, loadConfig.
    repeat match goal with
           | |- context [match ?x with _ => _ end] => destruct x eqn:?
           end; simpl; repeat split; try done;
      repeat match goal with
             | H : (0 <? _)%Z = true |- _ => apply Z.ltb_lt in H
             end; try lia. }
  clearbody executor. destruct Hh as (Hh & Ht & Hb & Hw & Hc & Hr).
  destruct (maxConcurrent executor <=? semaphore_capacity)%Z; [| done].
  intros [= <-]. simpl. repeat split; try done. lia.
Qed.

End ConfigurationFacts.

(** With nothing set in the environment the constructor yields the
    production executor, whatever the parsers are. *)
Lemma NewCommandExecutor_default json trim scanf :
  NewCommandExecutor (fun _ => None) json trim scanf = Some production_executor.
Proof. reflexivity. Qed.

(** With [COMMAND_WHITELIST=allow_all] and nothing else set, it yields
    the allow-all executor. *)
Lemma NewCommandExecutor_allow_all json trim scanf :
  NewCommandExecutor
    (fun k => if String.eqb k "COMMAND_WHITELIST" then Some "allow_all" else None)
    json trim scanf = Some allow_all_executor.
Proof. reflexivity. Qed.

(** ** Timeout *)

Section Timeouts.

Context {rt : GoRuntime}.

Lemma enter_Running_timeout ce req key a ce' cmd :
  enter ce req key a = (ce', Running cmd) ->
  cmd_Timeout cmd = effectiveTimeout (Timeout req).
Proof.
  unfold enter. intros He.
  repeat match type of He with
         | context [match ?x with _ => _ end] => destruct x eqn:?
         end; simplify_eq; done.
Qed.

(** C5: the effective timeout of a request is 30 when the requested
    value is zero or negative, 300 when it exceeds 300, and the requested
    value otherwise; it always lies in [1, 300]; and it is the deadline of
    every command [ExecuteCommand] runs for the request. *)
Theorem effective_timeout_clamped (ce : CommandExecutor) (req : CommandRequest)
    (key : string) (a : Arrival) (r : RunResult) :
  let t := Timeout req in
  let eff := effectiveTimeout t in
  ((t <= 0)%Z -> eff = 30%Z) /\
  ((300 < t)%Z -> eff = 300%Z) /\
  ((0 < t <= 300)%Z -> eff = t) /\
  (1 <= eff <= 300)%Z /\
  Forall (fun ev => match ev with
                    | EvRun cmd => cmd_Timeout cmd = eff
                    | EvLog _ _ _ _ _ => True
                    end)
         (ExecuteCommand ce req key a r).2.
Proof.
  intros t eff. unfold eff, effectiveTimeout.
  repeat split;
    try (destruct (Z.leb_spec t 0); destruct (Z.ltb_spec 300 t);
         try destruct (Z.ltb_spec 300 30); lia).
  unfold ExecuteCommand.
  destruct (enter ce req key a) as [ce' [resp | cmd]] eqn:He; [constructor |].
  apply enter_Running_timeout in He. unfold complete. simpl.
  repeat constructor. exact He.
Qed.

End Timeouts.

Lemma effective_timeout_clamped_witness :
  effectiveTimeout 0 = 30%Z /\ effectiveTimeout 1000 = 300%Z /\
  effectiveTimeout 5 = 5%Z /\
  (ExecuteCommand production_executor
     {| Command := "/bin/sleep"; Args := ["5"]; Timeout := 1000;
        Workdir := EmptyString; Env := None |}
     "default" (arrival_at 0) (run_ok [] 5000000000)).2 =
  [EvRun {| Path := "/bin/sleep"; cmd_Args := ["/bin/sleep"; "5"];
            cmd_Dir := EmptyString; cmd_Env := None; cmd_Timeout := 300 |};
   EvLog "/bin/sleep" ["5"] 0 5000000000 EmptyString].
Proof.
  pose proof (effective_timeout_clamped production_executor
                (command_only "/bin/ls") "default" (arrival_at 0) (run_ok [] 0))
    as (H0 & _).
  pose proof (effective_timeout_clamped production_executor
                {| Command := "/bin/sleep"; Args := ["5"]; Timeout := 1000;
                   Workdir := EmptyString; Env := None |}
                "default" (arrival_at 0) (run_ok [] 5000000000))
    as (_ & H1 & _).
  pose proof (effective_timeout_clamped production_executor
                {| Command := "/bin/ls"; Args := []; Timeout := 5;
                   Workdir := EmptyString; Env := None |}
                "default" (arrival_at 0) (run_ok [] 0))
    as (_ & _ & H2 & _).
  simpl in H0, H1, H2.
  split; [apply H0; lia |]. split; [apply H1; lia |]. split; [apply H2; lia |].
  vm_compute. reflexivity.
Defined.

(** ** What the checks before the run leave untouched *)

Section Frame.

Context {rt : GoRuntime}.

Lemma checkRateLimit_frame ce key now :
  same_config ce (checkRateLimit ce key now).1 /\
  concurrentSemaphore (checkRateLimit ce key now).1 = concurrentSemaphore ce.
Proof.
  unfold checkRateLimit, same_config.
  destruct (_ <=? _)%Z; simpl; repeat split.
Qed.

Lemma enter_frame ce req key a :
  same_config ce (enter ce req key a).1.
Proof.
  unfold enter.
  destruct (ValidateCommand ce (Command req)); [by repeat split |].
  pose proof (checkRateLimit_frame ce key (arr_now a)) as [Hc _].
  destruct (checkRateLimit ce key (arr_now a)) as [ce1 [err|]]; [exact Hc |].
  simpl in Hc.
  destruct (concurrentSemaphore ce1); [exact Hc |].
  destruct (Env req) as [m|]; [destruct (existsb invalid_env _) |];
    simpl; exact Hc.
Qed.

End Frame.

(** ** Bounded output capture *)

Lemma Write_spec (lw : limitedWriter) (p : list byte) :
  writer (Write lw p).1.1 = writer lw ++ take (Z.to_nat (bytesLeft lw)) p /\
  Z.to_nat (bytesLeft (Write lw p).1.1) = Z.to_nat (bytesLeft lw) - length p.
Proof.
  unfold Write.
  destruct (Z.leb_spec (bytesLeft lw) 0) as [Hle | Hgt]; simpl.
  - replace (Z.to_nat (bytesLeft lw)) with 0 by lia.
    by rewrite take_0, app_nil_r.
  - destruct (Z.ltb_spec (bytesLeft lw) (Z.of_nat (length p))) as [Hlt | Hge]; simpl.
    + split; [done | lia].
    + rewrite take_ge by lia. split; [done | lia].
Qed.

Lemma Writes_spec (ps : list (list byte)) (lw : limitedWriter) :
  writer (Writes lw ps) =
  writer lw ++ take (Z.to_nat (bytesLeft lw)) (concat ps).
Proof.
  unfold Writes. revert lw. induction ps as [|p ps IH]; intros lw; simpl.
  - by rewrite take_nil, app_nil_r.
  - destruct (Write_spec lw p) as [Hw Hb].
    rewrite IH, Hw, Hb, take_app, app_assoc. done.
Qed.

Lemma length_string_of_list_byte (l : list byte) :
  String.length (string_of_list_byte l) = length l.
Proof. induction l as [|b l IH]; simpl; [done | by rewrite <- IH]. Qed.

(** What a fresh sink of capacity [max] holds after the writes [ps]. *)
Lemma captured_spec (max : Z) (ps : list (list byte)) :
  writer (Writes (new_limitedWriter max) ps) =
  take (Z.to_nat (Z.min (Z.of_nat (length (concat ps))) max)) (concat ps).
Proof.
  rewrite Writes_spec. simpl.
  destruct (Z.le_ge_cases (Z.of_nat (length (concat ps))) max) as [Hle | Hge].
  - rewrite Z.min_l by done. rewrite !take_ge by lia. done.
  - rewrite Z.min_r by lia. done.
Qed.

Section OutputCapture.

Context {rt : GoRuntime}.

(** The bound on what is captured: after any sequence of [Write] calls
    carrying [k] bytes in all, a sink created with capacity [max] holds
    exactly the first [min k max] of them (none when the capacity is zero
    or negative), and no [Write] returns an error; so the [Stdout] and
    [Stderr] of every response of [ExecuteCommand] are at most
    [maxOutputSize] bytes long, and for an attempt that ran they are those
    first bytes of the writes made on the sinks.  The count each [Write]
    reports is not part of this statement. *)
Lemma output_capture_bounded (max : Z) (ps : list (list byte))
    (ce : CommandExecutor) (req : CommandRequest) (key : string)
    (a : Arrival) (r : RunResult) :
  let k := length (concat ps) in
  let captured := writer (Writes (new_limitedWriter max) ps) in
  let resp := (ExecuteCommand ce req key a r).1.2 in
  captured = take (Z.to_nat (Z.min (Z.of_nat k) max)) (concat ps) /\
  length captured = Z.to_nat (Z.min (Z.of_nat k) max) /\
  (forall lw p, (Write lw p).2 = None) /\
  String.length (Stdout resp) <= Z.to_nat (maxOutputSize ce) /\
  String.length (Stderr resp) <= Z.to_nat (maxOutputSize ce) /\
  (if reaches_execution ce req key a then
     Stdout resp = string_of_list_byte
       (take (Z.to_nat (Z.min (Z.of_nat (length (concat (stdout_writes r))))
                              (maxOutputSize ce)))
             (concat (stdout_writes r))) /\
     Stderr resp = string_of_list_byte
       (take (Z.to_nat (Z.min (Z.of_nat (length (concat (stderr_writes r))))
                              (maxOutputSize ce)))
             (concat (stderr_writes r)))
   else Stdout resp = EmptyString /\ Stderr resp = EmptyString).
Proof.
  intros k captured resp. unfold captured, k.
  rewrite captured_spec.
  split; [done |]. split; [rewrite length_take; lia |].
  split.
  { intros lw p. unfold Write.
    destruct (_ <=? _)%Z; [done |]. by destruct (_ <? _)%Z. }
  unfold resp, ExecuteCommand, reaches_execution.
  pose proof (enter_frame ce req key a) as (_ & _ & _ & _ & Hmax & _).
  destruct (enter ce req key a) as [ce1 [refused | cmd]] eqn:He.
  - assert (Hr : Stdout refused = EmptyString /\
                 Stderr refused = EmptyString).
    { unfold enter in He.
      repeat match type of He with
             | context [match ?x with _ => _ end] => destruct x eqn:?
             end; simplify_eq; done. }
    destruct Hr as [Ho Herr]. simpl. rewrite Ho, Herr. simpl.
    repeat split; lia.
  - simpl in Hmax. simpl. rewrite !length_string_of_list_byte, !captured_spec.
    rewrite !length_take, Hmax. repeat split; lia.
Qed.

End OutputCapture.

Example capture_three_of_six :
  writer (Writes (new_limitedWriter 3)
            [ ["a"; "b"]; ["c"; "d"; "e"]; ["f"] ]%byte) = ["a"; "b"; "c"]%byte.
Proof. reflexivity. Qed.

(** The two branches of [Write] that drop bytes disagree on the count they
    report: the one the capacity ends in reports only the bytes it kept,
    the one on a full sink reports all it was handed; both return a nil
    error. *)
Lemma Write_dropping_branches (lw : limitedWriter) (p : list byte) :
  ((0 < bytesLeft lw < Z.of_nat (length p))%Z ->
   (Write lw p).1.2 = bytesLeft lw /\ (Write lw p).2 = None /\
   writer (Write lw p).1.1 = writer lw ++ take (Z.to_nat (bytesLeft lw)) p) /\
  ((bytesLeft lw <= 0)%Z -> Write lw p = (lw, Z.of_nat (length p), None)).
Proof.
  unfold Write. split; intros H.
  - destruct (Z.leb_spec (bytesLeft lw) 0); [lia |].
    destruct (Z.ltb_spec (bytesLeft lw) (Z.of_nat (length p))); [done | lia].
  - by destruct (Z.leb_spec (bytesLeft lw) 0); [| lia].
Qed.

(** C2, where the code departs from it: the bytes beyond the capacity are
    not dropped silently.  A sink of capacity 3 that is handed the five
    bytes of "hello" keeps "hel" and reports 3 bytes written with a nil
    error, whereas the same [Write] on the sink once it is full reports
    all 5 as written.  A writer must not report a short count without an
    error; the copy loop of [os/exec] stops at it with "short write", and
    [ExecuteCommand], with an output limit of 3, answers the child that
    printed "hello" and exited with status 0 with exit code -1 and the
    error "short write" beside the captured "hel". *)
Theorem capture_boundary_short_count :
  let hello := list_byte_of_string "hello" in
  let full := {| writer := list_byte_of_string "hel"; maxSize := 3;
                 bytesLeft := 0 |} in
  let resp := (ExecuteCommand (set_limits 3 5 10 production_executor)
                 echo_hello_request "default" (arrival_at 0)
                 (run_short_write hello)).1.2 in
  Write (new_limitedWriter 3) hello = (full, 3%Z, None) /\
  Write full hello = (full, 5%Z, None) /\
  reaches_execution (set_limits 3 5 10 production_executor)
    echo_hello_request "default" (arrival_at 0) = true /\
  Stdout resp = "hel" /\ ExitCode resp = (-1)%Z /\
  Error resp = "short write".
Proof. vm_compute. by repeat split. Qed.

(** ** Rate limiting *)

Section RateLimit.

Context {rt : GoRuntime}.

(** The rate limiter in one statement: it prunes, then rejects when at
    least [rateLimit] timestamps remain (leaving the executor as it was),
    and otherwise records the pruned list with [now] appended. *)
Lemma checkRateLimit_spec (ce : CommandExecutor) (key : string) (now : Z) :
  let valid := validTimestamps ce key now in
  if decide (rateLimit ce <= Z.of_nat (length valid))%Z then
    (checkRateLimit ce key now).1 = ce /\
    (checkRateLimit ce key now).2 <> None
  else
    (checkRateLimit ce key now).2 = None /\
    rateLimitTracker (checkRateLimit ce key now).1 =
      <[key := valid ++ [now]]> (rateLimitTracker ce).
Proof.
  intros valid. unfold checkRateLimit. fold (validTimestamps ce key now).
  fold valid. destruct (Z.leb_spec (rateLimit ce) (Z.of_nat (length valid)));
    case_decide; try lia; simpl; done.
Qed.

Lemma filter_agree {A} (P Q : A -> Prop) `{!forall x, Decision (P x)}
    `{!forall x, Decision (Q x)} (l : list A) :
  Forall (fun x => P x <-> Q x) l -> filter P l = filter Q l.
Proof.
  induction 1 as [|x l Hx _ IH]; [done |].
  rewrite !filter_cons, IH. repeat case_decide; tauto.
Qed.

Lemma filter_all {A} (P : A -> Prop) `{!forall x, Decision (P x)} (l : list A) :
  Forall P l -> filter P l = l.
Proof.
  induction 1 as [|x l Hx _ IH]; [done |].
  rewrite filter_cons, IH. by case_decide.
Qed.

(** A burst inside the window [[start, start + W)] met by a tracker whose
    timestamps for the key are either older than that window or inside
    it: with [m] of them inside, the next [n - m] requests pass and all
    later ones are rejected. *)
Lemma burst_from (start : Z) (key : string) (times : list Z) :
  forall ce,
  Forall (fun ts => (ts + rateLimitWindow ce <= start)%Z \/
                    (start <= ts < start + rateLimitWindow ce)%Z)
         (default [] (rateLimitTracker ce !! key)) ->
  Forall (fun t => (start <= t < start + rateLimitWindow ce)%Z) times ->
  let n := Z.to_nat (rateLimit ce) in
  let m := length (filter (fun ts => (start <= ts)%Z)
                          (default [] (rateLimitTracker ce !! key))) in
  (burst ce key times).2 =
    replicate (min (n - m) (length times)) true ++
    replicate (length times - (n - m)) false.
Proof.
  induction times as [|t rest IH]; intros ce Hold Hin n m.
  - simpl. by rewrite Nat.min_0_r.
  - apply Forall_cons in Hin as [Ht Hrest]. cbn [burst].
    assert (Hvalid : validTimestamps ce key t =
                     filter (fun ts => (start <= ts)%Z)
                            (default [] (rateLimitTracker ce !! key))).
    { unfold validTimestamps. apply filter_agree.
      eapply Forall_impl; [exact Hold |]. simpl. intros ts Hts. lia. }
    pose proof (checkRateLimit_spec ce key t) as Hspec.
    pose proof (checkRateLimit_frame ce key t) as [Hcfg _].
    destruct (checkRateLimit ce key t) as [ce1 err] eqn:Hc.
    simpl in Hspec, Hcfg.
    destruct Hcfg as (_ & _ & _ & _ & _ & _ & Hn & Hw).
    specialize (IH ce1). rewrite Hw, Hn in IH.
    destruct (burst ce1 key rest) as [ce2 passed] eqn:Hb. simpl in IH. simpl.
    rewrite Hvalid in Hspec. fold m in Hspec.
    case_decide as Hfull.
    + destruct Hspec as [-> Herr]. fold m n in IH.
      rewrite IH by done.
      rewrite bool_decide_eq_false_2 by done.
      replace (n - m) with 0 by lia. simpl.
      by rewrite Nat.sub_0_r.
    + destruct Hspec as [-> Htr]. rewrite Htr, lookup_insert_eq in IH.
      simpl in IH. rewrite bool_decide_eq_true_2 by done.
      assert (Hnew : Forall (fun ts => (start <= ts < start + rateLimitWindow ce)%Z)
                (filter (fun ts => (start <= ts)%Z)
                        (default [] (rateLimitTracker ce !! key)) ++ [t])).
      { apply Forall_app. split; [| constructor; [exact Ht | constructor]].
        apply Forall_forall. intros ts Hts.
        apply list_elem_of_filter in Hts as [Hge Hts].
        rewrite Forall_forall in Hold. specialize (Hold ts Hts). lia. }
      assert (Hkeep : Forall (fun ts => (start <= ts)%Z)
                (filter (fun ts => (start <= ts)%Z)
                        (default [] (rateLimitTracker ce !! key)) ++ [t])).
      { eapply Forall_impl; [exact Hnew |]. simpl. intros ts Hts. lia. }
      rewrite (filter_all _ _ Hkeep), length_app in IH. simpl in IH.
      fold m n in IH. rewrite IH.
      * replace (min (n - m) (S (length rest)))
          with (S (min (n - (m + 1)) (length rest))) by lia.
        replace (S (length rest) - (n - m))
          with (length rest - (n - (m + 1))) by lia.
        done.
      * eapply Forall_impl; [exact Hnew |]. simpl. intros ts Hts. by right.
      * done.
Qed.

End RateLimit.

Section RateLimitBurst.

Context {rt : GoRuntime}.

(** C3, as the code has it: for every key the rate limiter prunes the
    recorded timestamps that are no longer inside the window (age not
    below [W]), rejects when at least [N] remain, and otherwise appends
    the current time; hence, when no timestamp recorded for the key is
    younger than [W] at the start of a window [[start, start + W)], a
    burst of [2N] requests with that key inside that window has exactly
    its first [N] pass and its remaining [N] rejected. *)
Theorem rate_limit_burst (ce : CommandExecutor) (key : string) :
  (forall now,
     let valid := validTimestamps ce key now in
     if decide (rateLimit ce <= Z.of_nat (length valid))%Z then
       (checkRateLimit ce key now).1 = ce /\
       (checkRateLimit ce key now).2 <> None
     else
       (checkRateLimit ce key now).2 = None /\
       rateLimitTracker (checkRateLimit ce key now).1 =
         <[key := valid ++ [now]]> (rateLimitTracker ce)) /\
  (forall start times,
     let n := Z.to_nat (rateLimit ce) in
     Forall (fun ts => (ts + rateLimitWindow ce <= start)%Z)
            (default [] (rateLimitTracker ce !! key)) ->
     Forall (fun t => (start <= t < start + rateLimitWindow ce)%Z) times ->
     length times = 2 * n ->
     (burst ce key times).2 = replicate n true ++ replicate n false).
Proof.
  split; [apply checkRateLimit_spec |].
  intros start times n Hold Hin Hlen.
  assert (Hcase : times = [] \/ (0 < rateLimitWindow ce)%Z).
  { destruct times as [|t rest]; [by left | right].
    apply Forall_cons in Hin as [Ht _]. lia. }
  destruct Hcase as [-> | HW].
  { simpl in Hlen. replace n with 0 by lia. done. }
  rewrite (burst_from start key times ce).
  - assert (Hnone : filter (fun ts => (start <= ts)%Z)
                      (default [] (rateLimitTracker ce !! key)) = []).
    { induction Hold as [|ts l Hts _ IH]; [done |].
      rewrite filter_cons, IH. case_decide; [lia | done]. }
    rewrite Hnone. fold n. rewrite Hlen. simpl length.
    replace (min (n - 0) (2 * n)) with n by lia.
    replace (2 * n - (n - 0)) with n by lia. done.
  - eapply Forall_impl; [exact Hold |]. simpl. intros ts Hts. by left.
  - done.
Qed.

End RateLimitBurst.

(** A burst of twenty requests within twenty milliseconds, half a minute
    after one earlier request of the same key: the earlier request is
    still counted, so only nine pass. *)
Lemma rate_limit_burst_counterexample :
  let ce := (checkRateLimit production_executor "default" 0).1 in
  let times := map (fun i => (30 * Second + Z.of_nat i * 1000000)%Z) (seq 0 20) in
  length times = 2 * Z.to_nat (rateLimit ce) /\
  Forall (fun t => (30 * Second <= t < 30 * Second + rateLimitWindow ce)%Z) times /\
  (burst ce "default" times).2 = replicate 9 true ++ replicate 11 false /\
  (burst ce "default" times).2 <>
    replicate (Z.to_nat (rateLimit ce)) true ++
    replicate (Z.to_nat (rateLimit ce)) false.
Proof.
  intros ce times. split; [reflexivity |]. split.
  - apply (bool_decide_unpack _). vm_compute. exact I.
  - assert (Hb : (burst ce "default" times).2 =
                 replicate 9 true ++ replicate 11 false) by (vm_compute; reflexivity).
    split; [exact Hb |]. rewrite Hb. vm_compute. discriminate.
Qed.

Lemma rate_limit_burst_witness :
  (burst production_executor "default"
     (map (fun i => Z.of_nat i * 1000000)%Z (seq 0 20))).2 =
  replicate 10 true ++ replicate 10 false.
Proof.
  destruct (rate_limit_burst production_executor "default") as [_ Hburst].
  apply (Hburst 0%Z).
  - simpl. constructor.
  - apply (bool_decide_unpack _). vm_compute. exact I.
  - reflexivity.
Defined.

(** ** Audit history *)

Lemma addToHistory_spec (ce : CommandExecutor) (e : CommandHistoryEntry) :
  history (addToHistory ce e) =
    most_recent (min (S (length (history ce))) 100) (history ce ++ [e]) /\
  length (history (addToHistory ce e)) = min (S (length (history ce))) 100 /\
  exists evicted, history ce ++ [e] = evicted ++ history (addToHistory ce e).
Proof.
  unfold addToHistory, most_recent.
  assert (Hlen : length (history ce ++ [e]) = S (length (history ce))).
  { rewrite length_app. simpl. lia. }
  destruct (Nat.ltb_spec 100 (length (history ce ++ [e]))) as [Hlt | Hge]; simpl.
  - rewrite Hlen in *. rewrite Nat.min_r by lia. split; [done |].
    split; [rewrite length_drop; lia |].
    exists (take (S (length (history ce)) - 100) (history ce ++ [e])).
    by rewrite take_drop.
  - rewrite Hlen in *. rewrite Nat.min_l by lia.
    replace (S (length (history ce)) - S (length (history ce))) with 0 by lia.
    rewrite drop_0. split; [done |]. split; [done |]. by exists [].
Qed.

Lemma GetHistory_spec (ce : CommandExecutor) (limit : Z) :
  let size := Z.of_nat (length (history ce)) in
  GetHistory ce limit =
    most_recent (Z.to_nat (if (limit <=? 0)%Z then size else Z.min limit size))
                (history ce).
Proof.
  intros size. unfold GetHistory, most_recent. fold size.
  destruct (Z.leb_spec limit 0) as [Hle | Hgt]; simpl.
  - f_equal. lia.
  - destruct (Z.ltb_spec size limit) as [Hlt | Hge]; f_equal; lia.
Qed.

Section History.

Context {rt : GoRuntime}.

Lemma complete_history ce req cmd startTime r :
  history (complete ce req cmd startTime r).1.1 =
  history (addToHistory ce (entry_of req startTime r)).
Proof. unfold complete, entry_of, release. simpl. done. Qed.

Lemma addToHistory_history_only ce ce' e :
  history ce' = history ce ->
  history (addToHistory ce' e) = history (addToHistory ce e).
Proof.
  intros Hh. unfold addToHistory. rewrite Hh.
  by destruct (100 <? _).
Qed.

Lemma ExecuteCommand_history ce req key a r :
  history (ExecuteCommand ce req key a r).1.1 =
  if reaches_execution ce req key a
  then history (addToHistory ce (entry_of req (arr_start a) r))
  else history ce.
Proof.
  unfold ExecuteCommand, reaches_execution.
  pose proof (enter_frame ce req key a) as (_ & _ & _ & Hh & _).
  destruct (enter ce req key a) as [ce1 [resp | cmd]]; simpl in Hh;
    cbv beta iota; [done |].
  rewrite complete_history. by apply addToHistory_history_only.
Qed.

(** A process is run exactly for the attempts that reach the execution
    stage. *)
Lemma ExecuteCommand_spawns ce req key a r :
  spawns (ExecuteCommand ce req key a r).2 = reaches_execution ce req key a.
Proof.
  unfold ExecuteCommand, reaches_execution.
  by destruct (enter ce req key a) as [ce1 [resp | cmd]].
Qed.

(** The four checks before the run, one by one. *)
Lemma reaches_execution_iff ce req key a :
  reaches_execution ce req key a = true <->
  ValidateCommand ce (Command req) = None /\
  (checkRateLimit ce key (arr_now a)).2 = None /\
  0 < concurrentSemaphore ce /\
  (forall m, Env req = Some m -> existsb invalid_env (map_to_list m) = false).
Proof.
  unfold reaches_execution, enter.
  destruct (ValidateCommand ce (Command req)); [split; [done | by intros [? _]] |].
  pose proof (checkRateLimit_frame ce key (arr_now a)) as [_ Hsem].
  destruct (checkRateLimit ce key (arr_now a)) as [ce1 [err|]]; simpl in *;
    [split; [done | by intros (_ & ? & _)] |].
  rewrite <- Hsem.
  destruct (concurrentSemaphore ce1); [split; [done | intros (_ & _ & ? & _); lia] |].
  destruct (Env req) as [m|].
  - destruct (existsb invalid_env (map_to_list m)) eqn:Hinv.
    + split; [done |]. intros (_ & _ & _ & Hall).
      specialize (Hall m eq_refl). congruence.
    + split; [| done]. intros _. repeat split; try done; try lia.
      by intros m' [= <-].
  - split; [| done]. intros _. repeat split; try done; lia.
Qed.

(** A step leaves the history alone unless it is the end of a run, which
    records one entry and moves that attempt from [Holding] to [Leaving],
    so that no attempt records twice. *)
Lemma step_history s s' :
  step s s' ->
  history s'.1 = history s.1 \/
  exists ts1 req a ts2 r,
    s.2 = ts1 ++ Holding req a :: ts2 /\ s'.2 = ts1 ++ Leaving :: ts2 /\
    env_refused req = false /\
    history s'.1 = history (addToHistory s.1 (entry_of req (arr_start a) r)).
Proof.
  intros Hstep.
  destruct Hstep as [ce ts req key a Hv | ce ts1 req a ts2 Hs
                    | ce ts1 req a ts2 free Hs | ce ts1 req a ts2 He
                    | ce ts1 req a ts2 r He | ce ts1 ts2]; cbn [fst snd];
    try (left; reflexivity).
  - left. by pose proof (checkRateLimit_frame ce key (arr_now a))
            as [(_ & _ & _ & Hh & _) _].
  - right. by exists ts1, req, a, ts2, r.
Qed.

Lemma reachable_history_bounded ce0 s :
  length (history ce0) <= 100 -> reachable ce0 s ->
  length (history s.1) <= 100.
Proof.
  intros H0 Hreach. unfold reachable in Hreach.
  revert s Hreach. apply (rtc_ind_r (fun s => length (history s.1) <= 100));
    [done |].
  intros s s' _ Hstep IH.
  destruct (step_history s s' Hstep)
    as [-> | (ts1 & req & a & ts2 & r & _ & _ & _ & ->)]; [done |].
  destruct (addToHistory_spec s.1 (entry_of req (arr_start a) r))
    as (_ & -> & _). lia.
Qed.

Lemma slots_held_app ts1 ts2 :
  slots_held (ts1 ++ ts2) = slots_held ts1 + slots_held ts2.
Proof. unfold slots_held. by rewrite List.filter_app, length_app. Qed.

(** Free slots plus slots held by calls in flight stay what the executor
    started with. *)
Lemma in_flight_slots ce0 s :
  reachable ce0 s ->
  concurrentSemaphore s.1 + slots_held s.2 = concurrentSemaphore ce0.
Proof.
  intros Hreach. unfold reachable in Hreach.
  revert s Hreach.
  apply (rtc_ind_r (fun s => concurrentSemaphore s.1 + slots_held s.2
                             = concurrentSemaphore ce0));
    [unfold slots_held; simpl; lia |].
  intros s s' _ Hstep IH.
  destruct Hstep as [ce ts req key a Hv | ce ts1 req a ts2 Hs
                    | ce ts1 req a ts2 free Hs | ce ts1 req a ts2 He
                    | ce ts1 req a ts2 r He | ce ts1 ts2];
    cbn [fst snd] in *; rewrite <- IH;
    rewrite ?slots_held_app; unfold slots_held; simpl.
  - pose proof (checkRateLimit_frame ce key (arr_now a)) as [_ ->].
    by destruct (checkRateLimit ce key (arr_now a)).2.
  - done.
  - lia.
  - done.
  - unfold addToHistory. destruct (100 <? _); simpl; lia.
  - lia.
Qed.

(** In an agent started by [NewCommandExecutor], the semaphore has no free
    slot exactly when [maxConcurrent] calls hold one. *)
Lemma no_free_slot_iff_all_in_flight GetEnv json trim scanf ce0 s :
  NewCommandExecutor GetEnv json trim scanf = Some ce0 ->
  reachable ce0 s ->
  concurrentSemaphore s.1 = 0 <->
  Z.of_nat (slots_held s.2) = maxConcurrent ce0.
Proof.
  intros Hnew Hreach.
  apply NewCommandExecutor_fresh in Hnew as (_ & _ & _ & _ & Hsem & _).
  apply in_flight_slots in Hreach. lia.
Qed.

(** One sequential call of [ExecuteCommand] is a path of steps: what the
    two halves do to the executor is what the steps do, taken in a row. *)
Lemma ExecuteCommand_steps ce req key a r ts :
  rtc step (ce, ts) ((ExecuteCommand ce req key a r).1.1, ts).
Proof.
  unfold ExecuteCommand, enter.
  destruct (ValidateCommand ce (Command req)) eqn:Hv; [apply rtc_refl |].
  pose proof (step_rate_limit ce ts req key a Hv) as Hrate.
  destruct (checkRateLimit ce key (arr_now a)) as [ce1 [err|]];
    cbn [fst snd] in Hrate; [by apply rtc_once |].
  eapply rtc_l; [exact Hrate |].
  destruct (concurrentSemaphore ce1) as [|free] eqn:Hs.
  { apply rtc_once. exact (step_full ce1 [] req a ts Hs). }
  eapply rtc_l; [exact (step_acquire ce1 [] req a ts free Hs) |].
  cbn [app].
  destruct (Env req) as [m|] eqn:Hm.
  - destruct (existsb invalid_env (map_to_list m)) eqn:Hinv.
    + eapply rtc_l; [eapply (step_env_refused _ [] req a ts) |].
      { unfold env_refused. by rewrite Hm. }
      apply rtc_once. exact (step_leave _ [] ts).
    + eapply rtc_l; [eapply (step_ran _ [] req a ts r) |].
      { unfold env_refused. by rewrite Hm. }
      apply rtc_once. exact (step_leave _ [] ts).
  - eapply rtc_l; [eapply (step_ran _ [] req a ts r) |].
    { unfold env_refused. by rewrite Hm. }
    apply rtc_once. exact (step_leave _ [] ts).
Qed.

End History.

Section HistoryClaims.

Context {rt : GoRuntime}.

(** C4: the history of an agent never holds more than 100 entries, in
    any state reached from a fresh executor by calls that interleave in
    any way; recording an entry appends it and evicts from the old end
    beyond 100; every attempt that reaches the execution stage records
    exactly one entry, with exit code -2 when it timed out, and an attempt
    refused by validation, the rate limit, the concurrency cap or the
    environment check records nothing. *)
Theorem history_bounded_one_entry_per_run :
  (forall GetEnv json trim scanf ce0 s,
     NewCommandExecutor GetEnv json trim scanf = Some ce0 ->
     reachable ce0 s -> length (history s.1) <= 100) /\
  (forall ce e,
     length (history (addToHistory ce e)) = min (S (length (history ce))) 100 /\
     exists evicted, history ce ++ [e] = evicted ++ history (addToHistory ce e)) /\
  (forall ce req key a r,
     history (ExecuteCommand ce req key a r).1.1 =
     if reaches_execution ce req key a
     then history (addToHistory ce (entry_of req (arr_start a) r))
     else history ce) /\
  (forall ce req key a,
     reaches_execution ce req key a = true <->
     ValidateCommand ce (Command req) = None /\
     (checkRateLimit ce key (arr_now a)).2 = None /\
     0 < concurrentSemaphore ce /\
     (forall m, Env req = Some m ->
                existsb invalid_env (map_to_list m) = false)) /\
  (forall req startTime r code msg,
     run_err r = ExitError code msg -> deadline_exceeded r = true ->
     entry_ExitCode (entry_of req startTime r) = (-2)%Z) /\
  (forall s s', step s s' ->
     history s'.1 = history s.1 \/
     exists ts1 req a ts2 r,
       s.2 = ts1 ++ Holding req a :: ts2 /\ s'.2 = ts1 ++ Leaving :: ts2 /\
       env_refused req = false /\
       history s'.1 = history (addToHistory s.1 (entry_of req (arr_start a) r))).
Proof.
  split; [| split; [| split; [| split; [| split]]]].
  - intros GetEnv json trim scanf ce0 s Hnew Hreach.
    apply (reachable_history_bounded ce0); [| done].
    apply NewCommandExecutor_fresh in Hnew as (-> & _). simpl. lia.
  - intros ce e. destruct (addToHistory_spec ce e) as (_ & Hlen & Hev). done.
  - apply ExecuteCommand_history.
  - apply reaches_execution_iff.
  - intros req startTime r code msg Herr Hdl. unfold entry_of, outcome. simpl.
    by rewrite Herr, Hdl.
  - apply step_history.
Qed.

(** C6, as the code has it: for a positive [limit], [GetHistory] returns
    the most recent [min limit size] entries; for a [limit] of zero or
    below it returns the whole history; in both cases the entries come
    oldest first, as the tail of the stored history. *)
Theorem get_history_most_recent (ce : CommandExecutor) (limit : Z) :
  let size := Z.of_nat (length (history ce)) in
  ((0 < limit)%Z ->
   GetHistory ce limit =
     most_recent (Z.to_nat (Z.min limit size)) (history ce) /\
   length (GetHistory ce limit) = Z.to_nat (Z.min limit size)) /\
  ((limit <= 0)%Z -> GetHistory ce limit = history ce) /\
  exists older, history ce = older ++ GetHistory ce limit.
Proof.
  intros size. pose proof (GetHistory_spec ce limit) as Hg. fold size in Hg.
  simpl in Hg. split; [| split].
  - intros Hpos. destruct (Z.leb_spec limit 0); [lia |].
    rewrite Hg. split; [done |]. unfold most_recent. rewrite length_drop. lia.
  - intros Hneg. destruct (Z.leb_spec limit 0); [| lia].
    rewrite Hg. unfold most_recent.
    replace (length (history ce) - Z.to_nat size) with 0 by lia.
    by rewrite drop_0.
  - rewrite Hg. unfold most_recent.
    eexists. symmetry. apply take_drop.
Qed.

(** C8: with no free slot in the semaphore - which is when
    [maxConcurrent] executions are in flight, see
    [no_free_slot_iff_all_in_flight] - a request that passes validation
    and the rate limit is answered at once, from the default branch of
    the select, with exit code -1 and the error "maximum concurrent
    command execution limit reached"; no process is run and nothing is
    added to the history. *)
Theorem concurrency_limit_refuses (ce : CommandExecutor)
    (req : CommandRequest) (key : string) (a : Arrival) (r : RunResult)
    (ce1 : CommandExecutor) :
  ValidateCommand ce (Command req) = None ->
  checkRateLimit ce key (arr_now a) = (ce1, None) ->
  concurrentSemaphore ce = 0 ->
  ExecuteCommand ce req key a r =
    (ce1, refusal "maximum concurrent command execution limit reached", []) /\
  ExitCode (ExecuteCommand ce req key a r).1.2 = (-1)%Z /\
  Error (ExecuteCommand ce req key a r).1.2 =
    "maximum concurrent command execution limit reached" /\
  spawns (ExecuteCommand ce req key a r).2 = false /\
  history ce1 = history ce /\ concurrentSemaphore ce1 = 0.
Proof.
  intros Hv Hr Hs.
  pose proof (checkRateLimit_frame ce key (arr_now a)) as [Hcfg Hsem].
  rewrite Hr in Hcfg, Hsem. simpl in Hcfg, Hsem.
  assert (He : ExecuteCommand ce req key a r =
               (ce1, refusal "maximum concurrent command execution limit reached", [])).
  { unfold ExecuteCommand, enter. rewrite Hv, Hr, Hsem, Hs. done. }
  rewrite He. repeat split; [apply Hcfg | lia].
Qed.

(** The branch that answers 127: when an attempt reaches the execution
    stage and [cmd.Run()] fails with an error that is no exit error and
    that [os.IsNotExist] recognises, [ExecuteCommand] returns exit code 127
    and the error "command not found". *)
Lemma missing_executable_is_127 (ce : CommandExecutor)
    (req : CommandRequest) (key : string) (a : Arrival) (r : RunResult)
    (msg : string) :
  reaches_execution ce req key a = true ->
  run_err r = OtherError true msg ->
  ExitCode (ExecuteCommand ce req key a r).1.2 = 127%Z /\
  Error (ExecuteCommand ce req key a r).1.2 = "command not found" /\
  spawns (ExecuteCommand ce req key a r).2 = true.
Proof.
  unfold reaches_execution, ExecuteCommand. intros Hreach Herr.
  destruct (enter ce req key a) as [ce1 [resp | cmd]]; [done |].
  unfold complete, outcome. simpl. rewrite Herr. done.
Qed.

End HistoryClaims.

Lemma history_bounded_one_entry_per_run_witness :
  reachable production_executor (after_one_run, []) /\
  length (history after_one_run) <= 100 /\
  history after_one_run =
    [ {| entry_Command := "/bin/ls"; entry_Args := []; Timestamp := 0;
         entry_Duration := 2000000; entry_ExitCode := 0;
         entry_Workdir := EmptyString |} ].
Proof.
  assert (Hreach : reachable production_executor (after_one_run, [])).
  { apply ExecuteCommand_steps. }
  destruct history_bounded_one_entry_per_run as (Hbound & _ & Hone & _).
  split; [exact Hreach |]. split.
  - exact (Hbound (fun _ => None) (fun _ => None) id (fun _ => None)
             production_executor (after_one_run, []) eq_refl Hreach).
  - unfold after_one_run. rewrite Hone. reflexivity.
Defined.

Lemma get_history_counterexample :
  length (history after_one_run) = 1 /\
  length (GetHistory after_one_run 0) = 1 /\
  GetHistory after_one_run 0 <>
    most_recent (Z.to_nat (Z.min 0 (Z.of_nat (length (history after_one_run)))))
                (history after_one_run).
Proof. vm_compute. repeat split. discriminate. Qed.

Lemma get_history_most_recent_witness :
  GetHistory after_one_run 5 = most_recent 1 (history after_one_run) /\
  GetHistory after_one_run (-3) = history after_one_run.
Proof.
  destruct (get_history_most_recent after_one_run 5) as (Hpos & _ & _).
  destruct (get_history_most_recent after_one_run (-3)) as (_ & Hneg & _).
  split; [apply Hpos; lia | apply Hneg; lia].
Defined.

Lemma concurrency_limit_refuses_witness :
  concurrentSemaphore (sleepers 5) = 0 /\
  (ExecuteCommand (sleepers 5) (command_only "/bin/ls") "default"
     (arrival_at 5) (run_ok [] 0)).1.2 =
  refusal "maximum concurrent command execution limit reached".
Proof.
  split; [reflexivity |].
  assert (Hv : ValidateCommand (sleepers 5) (Command (command_only "/bin/ls")) = None)
    by (vm_compute; reflexivity).
  assert (Hr : checkRateLimit (sleepers 5) "default" (arr_now (arrival_at 5)) =
               ((checkRateLimit (sleepers 5) "default" 5).1, None))
    by (vm_compute; reflexivity).
  assert (Hs : concurrentSemaphore (sleepers 5) = 0) by reflexivity.
  destruct (concurrency_limit_refuses (sleepers 5) (command_only "/bin/ls")
              "default" (arrival_at 5) (run_ok [] 0) _ Hv Hr Hs) as [He _].
  rewrite He. reflexivity.
Defined.

(** C9, where the code departs from it: the test [os.IsNotExist] does not
    single out the missing executable.  A request for the bare name
    "nosuchcmd", which no directory of $PATH holds, passes every check
    under the allow-all whitelist and is answered with exit code -1 and
    the text of the lookup error, not with 127 and "command not found";
    a request for "/bin/ls", which exists, in a working directory that
    does not, is answered with 127 and "command not found".  Only a
    missing file given by its path, such as "/usr/bin/docker" on a host
    without it, gets the answer the branch is written for. *)
Theorem missing_executable_not_singled_out :
  let bare := (ExecuteCommand allow_all_executor (command_only "nosuchcmd")
                 "default" (arrival_at 0) (run_not_in_PATH "nosuchcmd")).1.2 in
  let nodir := (ExecuteCommand production_executor (ls_in "/nonexistent")
                  "default" (arrival_at 0)
                  (run_missing_workdir "/nonexistent")).1.2 in
  let nofile := (ExecuteCommand production_executor
                   (command_only "/usr/bin/docker") "default" (arrival_at 0)
                   run_missing).1.2 in
  reaches_execution allow_all_executor (command_only "nosuchcmd")
    "default" (arrival_at 0) = true /\
  ExitCode bare = (-1)%Z /\
  Error bare = "exec: " +:+ DQUOTE +:+ "nosuchcmd" +:+ DQUOTE +:+
               ": executable file not found in $PATH" /\
  reaches_execution production_executor (ls_in "/nonexistent")
    "default" (arrival_at 0) = true /\
  ExitCode nodir = 127%Z /\ Error nodir = "command not found" /\
  ExitCode nofile = 127%Z /\ Error nofile = "command not found".
Proof. vm_compute. by repeat split. Qed.

(** * Further properties of the executor *)

(** ** What a call changes *)

Section Footprint.

Context {rt : GoRuntime}.

Lemma checkRateLimit_other_keys ce key now k :
  k <> key ->
  rateLimitTracker (checkRateLimit ce key now).1 !! k = rateLimitTracker ce !! k.
Proof.
  intros Hk. unfold checkRateLimit. destruct (_ <=? _)%Z; simpl; [done |].
  by rewrite lookup_insert_ne.
Qed.

Lemma enter_tracker ce req key a :
  rateLimitTracker (enter ce req key a).1 =
  match ValidateCommand ce (Command req) with
  | Some _ => rateLimitTracker ce
  | None => rateLimitTracker (checkRateLimit ce key (arr_now a)).1
  end.
Proof.
  unfold enter. destruct (ValidateCommand ce (Command req)); [done |].
  destruct (checkRateLimit ce key (arr_now a)) as [ce1 [err|]]; [done |].
  cbn [fst]. destruct (concurrentSemaphore ce1); [done |].
  destruct (Env req) as [m|]; [| done].
  by destruct (existsb invalid_env (map_to_list m)).
Qed.

Lemma enter_semaphore ce req key a :
  concurrentSemaphore (enter ce req key a).1 =
  match (enter ce req key a).2 with
  | Refused _ => concurrentSemaphore ce
  | Running _ => pred (concurrentSemaphore ce)
  end.
Proof.
  unfold enter. destruct (ValidateCommand ce (Command req)); [done |].
  pose proof (checkRateLimit_frame ce key (arr_now a)) as [_ Hsem].
  destruct (checkRateLimit ce key (arr_now a)) as [ce1 [err|]]; [done |].
  cbn [fst] in *. rewrite <- Hsem.
  destruct (concurrentSemaphore ce1) eqn:Hs; [exact Hs |].
  destruct (Env req) as [m|]; [| done].
  by destruct (existsb invalid_env (map_to_list m)).
Qed.

Lemma complete_tracker ce req cmd startTime r :
  rateLimitTracker (complete ce req cmd startTime r).1.1 = rateLimitTracker ce.
Proof. unfold complete, release, addToHistory. simpl. by destruct (100 <? _). Qed.

Lemma complete_semaphore ce req cmd startTime r :
  concurrentSemaphore (complete ce req cmd startTime r).1.1 =
  S (concurrentSemaphore ce).
Proof. unfold complete, release, addToHistory. simpl. by destruct (100 <? _). Qed.

Lemma complete_config ce req cmd startTime r :
  let ce' := (complete ce req cmd startTime r).1.1 in
  whitelist ce' = whitelist ce /\ blacklist ce' = blacklist ce /\
  allowedPaths ce' = allowedPaths ce /\
  maxOutputSize ce' = maxOutputSize ce /\
  maxConcurrent ce' = maxConcurrent ce /\
  rateLimit ce' = rateLimit ce /\ rateLimitWindow ce' = rateLimitWindow ce.
Proof.
  unfold complete, release, addToHistory. simpl.
  by destruct (100 <? _).
Qed.

Lemma ExecuteCommand_frame (ce : CommandExecutor) (req : CommandRequest)
    (key : string) (a : Arrival) (r : RunResult) :
  let ce' := (ExecuteCommand ce req key a r).1.1 in
  whitelist ce' = whitelist ce /\ blacklist ce' = blacklist ce /\
  allowedPaths ce' = allowedPaths ce /\
  maxOutputSize ce' = maxOutputSize ce /\
  maxConcurrent ce' = maxConcurrent ce /\
  rateLimit ce' = rateLimit ce /\ rateLimitWindow ce' = rateLimitWindow ce /\
  concurrentSemaphore ce' = concurrentSemaphore ce /\
  forall k, k <> key ->
    rateLimitTracker ce' !! k = rateLimitTracker ce !! k.
Proof.
  intros ce'. unfold ce', ExecuteCommand.
  pose proof (enter_frame ce req key a) as (Hw & Hb & Hp & _ & Ho & Hc & Hn & Hwin).
  pose proof (enter_semaphore ce req key a) as Hsem.
  pose proof (enter_tracker ce req key a) as Htr.
  assert (Hother : forall k, k <> key ->
            rateLimitTracker (enter ce req key a).1 !! k = rateLimitTracker ce !! k).
  { intros k Hk. rewrite Htr. destruct (ValidateCommand ce (Command req)); [done |].
    by apply checkRateLimit_other_keys. }
  pose proof (reaches_execution_iff ce req key a) as Hreach.
  unfold reaches_execution in Hreach.
  destruct (enter ce req key a) as [ce1 [resp | cmd]]; cbn [fst snd] in *.
  - done.
  - pose proof (complete_config ce1 req cmd (arr_start a) r)
      as (Hw' & Hb' & Hp' & Ho' & Hc' & Hn' & Hwin').
    rewrite complete_semaphore, complete_tracker.
    destruct (proj1 Hreach eq_refl) as (_ & _ & Hpos & _).
    repeat split; try congruence; try lia. exact Hother.
Qed.

(** X1: whatever the request and however it ends, a call of
    [ExecuteCommand] leaves the configuration of the executor as it was,
    gives back the semaphore slot it took, and touches the rate-limit
    record of no key but its own. *)
Theorem ExecuteCommand_footprint (ce : CommandExecutor) (req : CommandRequest)
    (key : string) (a : Arrival) (r : RunResult) :
  let ce' := (ExecuteCommand ce req key a r).1.1 in
  whitelist ce' = whitelist ce /\ blacklist ce' = blacklist ce /\
  allowedPaths ce' = allowedPaths ce /\
  maxOutputSize ce' = maxOutputSize ce /\
  maxConcurrent ce' = maxConcurrent ce /\
  rateLimit ce' = rateLimit ce /\ rateLimitWindow ce' = rateLimitWindow ce /\
  concurrentSemaphore ce' = concurrentSemaphore ce /\
  forall k, k <> key ->
    rateLimitTracker ce' !! k = rateLimitTracker ce !! k.
Proof. exact (ExecuteCommand_frame ce req key a r). Qed.

Lemma refused_response (ce : CommandExecutor) (req : CommandRequest)
    (key : string) (a : Arrival) (r : RunResult) :
  reaches_execution ce req key a = false ->
  let resp := (ExecuteCommand ce req key a r).1.2 in
  ExitCode resp = (-1)%Z /\ Error resp <> EmptyString /\
  Stdout resp = EmptyString /\ Stderr resp = EmptyString /\
  Duration resp = 0%Z /\ (ExecuteCommand ce req key a r).2 = [].
Proof.
  unfold reaches_execution, ExecuteCommand. intros Hreach.
  destruct (enter ce req key a) as [ce1 [resp | cmd]] eqn:He; [| done].
  cbn [fst snd]. unfold enter in He.
  destruct (ValidateCommand ce (Command req)) as [err|].
  { injection He as _ <-. by repeat split. }
  destruct (checkRateLimit ce key (arr_now a)) as [ce2 [err|]] eqn:Hr.
  { injection He as _ <-. repeat split; try done. simpl.
    unfold checkRateLimit in Hr. destruct (_ <=? _)%Z; [| done].
    injection Hr as _ <-. done. }
  destruct (concurrentSemaphore ce2).
  { injection He as _ <-. by repeat split. }
  destruct (Env req) as [m|]; [| done].
  destruct (existsb invalid_env (map_to_list m)); [| done].
  injection He as _ <-. by repeat split.
Qed.

(** X2: a request that does not reach the execution stage is answered
    with exit code -1, a non-empty error, empty output and zero duration,
    and nothing is asked of the host: no process and no log record. *)
Theorem refused_response_shape (ce : CommandExecutor) (req : CommandRequest)
    (key : string) (a : Arrival) (r : RunResult) :
  reaches_execution ce req key a = false ->
  let resp := (ExecuteCommand ce req key a r).1.2 in
  ExitCode resp = (-1)%Z /\ Error resp <> EmptyString /\
  Stdout resp = EmptyString /\ Stderr resp = EmptyString /\
  Duration resp = 0%Z /\ (ExecuteCommand ce req key a r).2 = [].
Proof. exact (refused_response ce req key a r). Qed.

End Footprint.

Lemma refused_response_shape_witness :
  reaches_execution production_executor (command_only "ls; id") "default"
    (arrival_at 0) = false /\
  ExitCode (ExecuteCommand production_executor (command_only "ls; id")
              "default" (arrival_at 0) (run_ok [] 0)).1.2 = (-1)%Z.
Proof.
  assert (H : reaches_execution production_executor (command_only "ls; id")
                "default" (arrival_at 0) = false) by (vm_compute; reflexivity).
  split; [exact H |].
  exact (proj1 (refused_response_shape production_executor
                  (command_only "ls; id") "default" (arrival_at 0)
                  (run_ok [] 0) H)).
Defined.

Lemma ExecuteCommand_footprint_witness :
  concurrentSemaphore
    (ExecuteCommand production_executor (command_only "/bin/ls") "alice"
       (arrival_at 0) (run_ok [] 0)).1.1 = 5 /\
  rateLimitTracker
    (ExecuteCommand production_executor (command_only "/bin/ls") "alice"
       (arrival_at 0) (run_ok [] 0)).1.1 !! "bob" = None.
Proof.
  destruct (ExecuteCommand_footprint production_executor
              (command_only "/bin/ls") "alice" (arrival_at 0) (run_ok [] 0))
    as (_ & _ & _ & _ & _ & _ & _ & Hsem & Hother).
  split; [exact Hsem |]. rewrite Hother; [reflexivity | discriminate].
Defined.

(** ** What is run, and what is recorded *)

Lemma addToHistory_last (ce : CommandExecutor) (e : CommandHistoryEntry) :
  last (history (addToHistory ce e)) = Some e.
Proof.
  destruct (addToHistory_spec ce e) as (_ & Hlen & evicted & Hev).
  assert (Hne : history (addToHistory ce e) <> []).
  { intros Hnil. rewrite Hnil in Hlen. simpl in Hlen. lia. }
  apply (f_equal last) in Hev. rewrite last_snoc in Hev.
  rewrite last_app in Hev.
  destruct (last (history (addToHistory ce e))) eqn:Hl; [congruence |].
  apply last_None in Hl. done.
Qed.

Section RunAndRecord.

Context {rt : GoRuntime}.

Lemma enter_Running_cmd ce req key a ce' cmd :
  enter ce req key a = (ce', Running cmd) ->
  Path cmd = Command req /\ cmd_Args cmd = Command req :: Args req /\
  cmd_Dir cmd = Workdir req /\
  cmd_Env cmd = match Env req with
                | None => None
                | Some m => Some (arr_environ a ++ env_entries m)
                end.
Proof.
  unfold enter. intros He.
  assert (Hdir : (if String.eqb (Workdir req) EmptyString then EmptyString
                  else Workdir req) = Workdir req).
  { destruct (String.eqb_spec (Workdir req) EmptyString) as [-> |]; done. }
  cbv zeta in He. rewrite Hdir in He.
  repeat match type of He with
         | context [match ?x with _ => _ end] => destruct x eqn:?
         end; simplify_eq; simpl; done.
Qed.

(** X3: for an attempt that reaches the execution stage, [cmd.Run()] is
    called exactly once - whether or not a process can be started - and
    then exactly one "Command executed" record is logged, with the
    request's command, arguments and working directory, the exit code of
    the response and the measured duration.  The command handed to
    [os/exec] is built from the request as it stands: the name given to
    [exec.CommandContext] is the requested command (a bare name is left
    for [os/exec] to look up), the argument vector is that name followed
    by the requested arguments in order, the directory is the requested
    working directory, and the environment is left unset (inherited) when
    the request has none and is otherwise the host's environment followed
    by one "name=value" entry for every requested variable. *)
Theorem executed_command_is_request (ce : CommandExecutor)
    (req : CommandRequest) (key : string) (a : Arrival) (r : RunResult) :
  reaches_execution ce req key a = true ->
  exists cmd,
    (ExecuteCommand ce req key a r).2 =
      [EvRun cmd;
       EvLog (Command req) (Args req)
             (ExitCode (ExecuteCommand ce req key a r).1.2)
             (since_start r) (Workdir req)] /\
    Path cmd = Command req /\ cmd_Args cmd = Command req :: Args req /\
    cmd_Dir cmd = Workdir req /\
    match Env req with
    | None => cmd_Env cmd = None
    | Some m =>
        cmd_Env cmd = Some (arr_environ a ++ env_entries m) /\
        forall k v, m !! k = Some v ->
                    In (k +:+ "=" +:+ v) (arr_environ a ++ env_entries m)
    end.
Proof.
  unfold reaches_execution, ExecuteCommand. intros Hreach.
  destruct (enter ce req key a) as [ce1 [resp | cmd]] eqn:He; [done |].
  apply enter_Running_cmd in He as (Hp & Hargs & Hdir & Henv).
  exists cmd. unfold complete. cbn [fst snd ExitCode]. repeat split; try done.
  destruct (Env req) as [m|]; [| done]. split; [done |].
  intros k v Hkv. apply in_or_app. right. unfold env_entries.
  apply (in_map (fun kv => kv.1 +:+ "=" +:+ kv.2) _ (k, v)).
  apply list_elem_of_In. by apply elem_of_map_to_list.
Qed.

(** X4: a request that passes validation and the rate limiter has its
    time recorded for its key whatever happens next - also when it is then
    refused for lack of a slot or for its environment, and whatever the
    run does: it counts against the rate limit. *)
Theorem passed_rate_limit_is_counted (ce : CommandExecutor)
    (req : CommandRequest) (key : string) (a : Arrival) (r : RunResult) :
  ValidateCommand ce (Command req) = None ->
  (checkRateLimit ce key (arr_now a)).2 = None ->
  rateLimitTracker (ExecuteCommand ce req key a r).1.1 !! key =
  Some (validTimestamps ce key (arr_now a) ++ [arr_now a]).
Proof.
  intros Hv Hr.
  assert (Htr : rateLimitTracker (ExecuteCommand ce req key a r).1.1 =
                rateLimitTracker (checkRateLimit ce key (arr_now a)).1).
  { unfold ExecuteCommand. pose proof (enter_tracker ce req key a) as Ht.
    rewrite Hv in Ht.
    destruct (enter ce req key a) as [ce1 [resp | cmd]]; cbn [fst snd] in *;
      [done |]. by rewrite complete_tracker. }
  rewrite Htr. pose proof (checkRateLimit_spec ce key (arr_now a)) as Hs.
  simpl in Hs. case_decide.
  - destruct Hs as [_ Hs]. done.
  - destruct Hs as [_ ->]. by rewrite lookup_insert_eq.
Qed.

(** X5: an attempt that reaches the execution stage leaves as newest
    history entry the request's command, arguments and working directory,
    the start time of the call, the measured duration, and the very exit
    code the response carries; the response gives that duration in whole
    milliseconds. *)
Theorem run_recorded_as_answered (ce : CommandExecutor)
    (req : CommandRequest) (key : string) (a : Arrival) (r : RunResult) :
  reaches_execution ce req key a = true ->
  let resp := (ExecuteCommand ce req key a r).1.2 in
  last (history (ExecuteCommand ce req key a r).1.1) =
    Some {| entry_Command := Command req; entry_Args := Args req;
            Timestamp := arr_start a; entry_Duration := since_start r;
            entry_ExitCode := ExitCode resp;
            entry_Workdir := Workdir req |} /\
  Duration resp = (since_start r ÷ 1000000)%Z.
Proof.
  intros Hreach resp.
  pose proof (ExecuteCommand_history ce req key a r) as Hh.
  rewrite Hreach in Hh. rewrite Hh, addToHistory_last.
  unfold resp, ExecuteCommand. unfold reaches_execution in Hreach.
  destruct (enter ce req key a) as [ce1 [refused | cmd]]; [done |].
  unfold complete, entry_of. simpl. done.
Qed.

(** X6: how the end of a run is reported, for an attempt that reaches the
    execution stage.  A run without error gives exit code 0 and no error
    text, also when the deadline has passed meanwhile; an exit error gives
    the exit code and text of the process, unless the deadline has passed,
    which gives -2 and "command execution timed out"; any other error
    that is not a missing file gives -1 and its text, the deadline
    notwithstanding. *)
Theorem run_outcome_reported (ce : CommandExecutor)
    (req : CommandRequest) (key : string) (a : Arrival) (r : RunResult) :
  reaches_execution ce req key a = true ->
  let resp := (ExecuteCommand ce req key a r).1.2 in
  (run_err r = NoError ->
   ExitCode resp = 0%Z /\ Error resp = EmptyString) /\
  (forall code msg, run_err r = ExitError code msg ->
   if deadline_exceeded r
   then ExitCode resp = (-2)%Z /\ Error resp = "command execution timed out"
   else ExitCode resp = code /\ Error resp = msg) /\
  (forall msg, run_err r = OtherError false msg ->
   ExitCode resp = (-1)%Z /\ Error resp = msg).
Proof.
  unfold reaches_execution, ExecuteCommand. intros Hreach.
  destruct (enter ce req key a) as [ce1 [refused | cmd]]; [done |].
  unfold complete, outcome. cbn [fst snd ExitCode Error].
  split; [| split].
  - by intros ->.
  - intros code msg ->. by destruct (deadline_exceeded r).
  - by intros msg ->.
Qed.

End RunAndRecord.

Lemma executed_command_is_request_witness :
  (ExecuteCommand production_executor env_request "default" (arrival_at 0)
     (run_ok [] 1000000)).2 =
  [EvRun {| Path := "/usr/bin/env"; cmd_Args := ["/usr/bin/env"; "-0"];
            cmd_Dir := "/tmp";
            cmd_Env := Some ["PATH=/usr/bin:/bin"; "TEST_VAR=test_value"];
            cmd_Timeout := 10 |};
   EvLog "/usr/bin/env" ["-0"] 0 1000000 "/tmp"].
Proof.
  assert (H : reaches_execution production_executor env_request "default"
                (arrival_at 0) = true) by (vm_compute; reflexivity).
  destruct (executed_command_is_request production_executor env_request
              "default" (arrival_at 0) (run_ok [] 1000000) H)
    as (cmd & Htr & _).
  vm_compute. reflexivity.
Defined.

Lemma passed_rate_limit_is_counted_witness :
  (ExecuteCommand (sleepers 5) (command_only "/bin/ls") "default"
     (arrival_at 5) (run_ok [] 0)).1.2 =
    refusal "maximum concurrent command execution limit reached" /\
  rateLimitTracker
    (ExecuteCommand (sleepers 5) (command_only "/bin/ls") "default"
       (arrival_at 5) (run_ok [] 0)).1.1 !! "default" =
  Some [0; 1; 2; 3; 4; 5]%Z.
Proof.
  split; [vm_compute; reflexivity |].
  rewrite (passed_rate_limit_is_counted (sleepers 5) (command_only "/bin/ls")
             "default" (arrival_at 5) (run_ok [] 0));
    vm_compute; reflexivity.
Defined.

Lemma run_recorded_as_answered_witness :
  last (history (ExecuteCommand production_executor
                   {| Command := "/bin/sleep"; Args := ["5"]; Timeout := 1;
                      Workdir := EmptyString; Env := None |}
                   "default" (arrival_at 7) (run_timed_out 1000200000)).1.1) =
  Some {| entry_Command := "/bin/sleep"; entry_Args := ["5"]; Timestamp := 7;
          entry_Duration := 1000200000; entry_ExitCode := -2;
          entry_Workdir := EmptyString |}.
Proof.
  assert (H : reaches_execution production_executor
                {| Command := "/bin/sleep"; Args := ["5"]; Timeout := 1;
                   Workdir := EmptyString; Env := None |}
                "default" (arrival_at 7) = true) by (vm_compute; reflexivity).
  destruct (run_recorded_as_answered production_executor _ "default"
              (arrival_at 7) (run_timed_out 1000200000) H) as [Hlast _].
  rewrite Hlast. vm_compute. reflexivity.
Defined.

Lemma run_outcome_reported_witness :
  (ExecuteCommand production_executor
     {| Command := "/bin/sleep"; Args := ["5"]; Timeout := 1;
        Workdir := EmptyString; Env := None |}
     "default" (arrival_at 7) (run_timed_out 1000200000)).1.2 =
  {| ExitCode := -2; Stdout := EmptyString; Stderr := EmptyString;
     Error := "command execution timed out"; Duration := 1000 |}.
Proof.
  assert (H : reaches_execution production_executor
                {| Command := "/bin/sleep"; Args := ["5"]; Timeout := 1;
                   Workdir := EmptyString; Env := None |}
                "default" (arrival_at 7) = true) by (vm_compute; reflexivity).
  destruct (run_outcome_reported production_executor _ "default"
              (arrival_at 7) (run_timed_out 1000200000) H) as (_ & Hexit & _).
  specialize (Hexit (-1)%Z "signal: killed" eq_refl). simpl in Hexit.
  vm_compute. reflexivity.
Defined.

(** ** The environment check *)

Lemma ContainsAny_spec (s chars : string) :
  ContainsAny s chars = true <->
  exists c, In c (list_ascii_of_string s) /\ In c (list_ascii_of_string chars).
Proof.
  unfold ContainsAny. rewrite existsb_exists. split.
  - intros (c & Hc & Hex). apply existsb_exists in Hex as (d & Hd & Heq).
    apply Ascii.eqb_eq in Heq as ->. eauto.
  - intros (c & Hc & Hd). exists c. split; [done |].
    apply existsb_exists. exists c. split; [done | apply Ascii.eqb_refl].
Qed.

Lemma ContainsAny_line_break (s : string) :
  ContainsAny s (LF +:+ CR) = true <-> has_line_break s.
Proof.
  rewrite ContainsAny_spec. unfold has_line_break. simpl. split.
  - intros (c & Hc & [<- | [<- | []]]); tauto.
  - intros [H | H]; eexists; (split; [exact H |]); simpl; tauto.
Qed.

Section EnvironmentCheck.

Context {rt : GoRuntime}.

(** X7: a request that has passed validation and the rate limiter and has
    taken a slot is refused on its environment exactly when some requested
    variable has a line feed or carriage return in its name or in its
    value; the answer is then exit code -1 with "environment variable
    contains invalid characters", no process is run, nothing is recorded
    in the history, and the slot is given back. *)
Theorem environment_refusal (ce : CommandExecutor) (req : CommandRequest)
    (key : string) (a : Arrival) (r : RunResult) :
  ValidateCommand ce (Command req) = None ->
  (checkRateLimit ce key (arr_now a)).2 = None ->
  0 < concurrentSemaphore ce ->
  (reaches_execution ce req key a = false <->
   exists m k v, Env req = Some m /\ m !! k = Some v /\
                 (has_line_break k \/ has_line_break v)) /\
  (reaches_execution ce req key a = false ->
   (ExecuteCommand ce req key a r).1.2 =
     refusal "environment variable contains invalid characters" /\
   (ExecuteCommand ce req key a r).2 = [] /\
   history (ExecuteCommand ce req key a r).1.1 = history ce /\
   concurrentSemaphore (ExecuteCommand ce req key a r).1.1 =
     concurrentSemaphore ce).
Proof.
  intros Hv Hr Hs.
  assert (Hiff : reaches_execution ce req key a = false <-> env_refused req = true).
  { pose proof (reaches_execution_iff ce req key a) as Hreach.
    unfold env_refused. split.
    - intros Hno. destruct (Env req) as [m|] eqn:Hm.
      + destruct (existsb invalid_env (map_to_list m)) eqn:Hinv; [done |].
        assert (reaches_execution ce req key a = true); [| congruence].
        apply Hreach. repeat split; try done. by intros m' [= <-].
      + assert (reaches_execution ce req key a = true); [| congruence].
        apply Hreach. repeat split; done.
    - intros Href. destruct (reaches_execution ce req key a) eqn:Hyes; [| done].
      destruct (proj1 Hreach eq_refl) as (_ & _ & _ & Hall).
      destruct (Env req) as [m|]; [| done].
      rewrite (Hall m eq_refl) in Href. done. }
  split.
  - rewrite Hiff. unfold env_refused. split.
    + destruct (Env req) as [m|]; [| done]. intros Hex.
      apply existsb_exists in Hex as ([k v] & Hin & Hinv).
      exists m, k, v. split; [done |]. split.
      * apply elem_of_map_to_list. by apply list_elem_of_In.
      * unfold invalid_env in Hinv. apply orb_true_iff in Hinv.
        simpl in Hinv. by rewrite !ContainsAny_line_break in Hinv.
    + intros (m & k & v & -> & Hkv & Hbreak).
      apply existsb_exists. exists (k, v). split.
      * apply list_elem_of_In. by apply elem_of_map_to_list.
      * unfold invalid_env. apply orb_true_iff. simpl.
        by rewrite !ContainsAny_line_break.
  - intros Hno. apply Hiff in Hno. unfold env_refused in Hno.
    pose proof (ExecuteCommand_history ce req key a r) as Hh.
    pose proof (ExecuteCommand_frame ce req key a r)
      as (_ & _ & _ & _ & _ & _ & _ & Hsem & _).
    assert (Hreach : reaches_execution ce req key a = false) by by apply Hiff.
    rewrite Hreach in Hh. split; [| split; [| split]]; try done.
    + unfold ExecuteCommand, enter. rewrite Hv.
      pose proof (checkRateLimit_frame ce key (arr_now a)) as [_ Hsem'].
      destruct (checkRateLimit ce key (arr_now a)) as [ce1 [err|]]; [done |].
      cbn [fst] in Hsem'. rewrite Hsem'.
      destruct (concurrentSemaphore ce); [lia |].
      destruct (Env req) as [m|]; [| done]. by rewrite Hno.
    + by apply refused_response.
Qed.

End EnvironmentCheck.

Lemma environment_refusal_witness :
  reaches_execution production_executor env_injection_request "test"
    (arrival_at 0) = false /\
  (ExecuteCommand production_executor env_injection_request "test"
     (arrival_at 0) (run_ok [] 0)).1.2 =
  refusal "environment variable contains invalid characters".
Proof.
  assert (Hv : ValidateCommand production_executor
                 (Command env_injection_request) = None)
    by (vm_compute; reflexivity).
  assert (Hr : (checkRateLimit production_executor "test"
                  (arr_now (arrival_at 0))).2 = None)
    by (vm_compute; reflexivity).
  assert (Hs : 0 < concurrentSemaphore production_executor) by (simpl; lia).
  destruct (environment_refusal production_executor env_injection_request
              "test" (arrival_at 0) (run_ok [] 0) Hv Hr Hs) as [Hiff Hresp].
  assert (Hno : reaches_execution production_executor env_injection_request
                  "test" (arrival_at 0) = false).
  { apply Hiff. exists {[ "TEST_VAR" := "test" +:+ LF +:+ "value" ]},
      "TEST_VAR", ("test" +:+ LF +:+ "value").
    split; [reflexivity |]. split; [vm_compute; reflexivity |].
    right. left. vm_compute. tauto. }
  split; [exact Hno |]. exact (proj1 (Hresp Hno)).
Defined.

(** ** More on the rate limiter *)

Section RateLimitMore.

Context {rt : GoRuntime}.

(** X8: rate limiting is per key: a check for one key leaves the record of
    every other key as it was, and its verdict depends on nothing in the
    tracker but the timestamps of its own key. *)
Theorem rate_limit_per_key (ce ce2 : CommandExecutor) (key : string) (now : Z) :
  (forall k, k <> key ->
     rateLimitTracker (checkRateLimit ce key now).1 !! k =
     rateLimitTracker ce !! k) /\
  (rateLimitTracker ce2 !! key = rateLimitTracker ce !! key ->
   rateLimit ce2 = rateLimit ce ->
   rateLimitWindow ce2 = rateLimitWindow ce ->
   (checkRateLimit ce2 key now).2 = (checkRateLimit ce key now).2 /\
   rateLimitTracker (checkRateLimit ce2 key now).1 !! key =
   rateLimitTracker (checkRateLimit ce key now).1 !! key).
Proof.
  split; [intros k Hk; by apply checkRateLimit_other_keys |].
  intros Hsame Hn Hw. unfold checkRateLimit. rewrite Hsame, Hn, Hw.
  destruct (_ <=? _)%Z; simpl; [done |].
  by rewrite !lookup_insert_eq.
Qed.

(** X9: when every timestamp recorded for the key has left the window
    (its age is [W] or more) and the limit is positive, the next request
    passes and the record of the key becomes that request alone: a client
    is admitted again one window after its last admitted request. *)
Theorem rate_limit_recovers (ce : CommandExecutor) (key : string) (now : Z) :
  (0 < rateLimit ce)%Z ->
  Forall (fun ts => (rateLimitWindow ce <= now - ts)%Z)
         (default [] (rateLimitTracker ce !! key)) ->
  (checkRateLimit ce key now).2 = None /\
  rateLimitTracker (checkRateLimit ce key now).1 !! key = Some [now].
Proof.
  intros Hn Hold.
  assert (Hvalid : validTimestamps ce key now = []).
  { unfold validTimestamps.
    induction Hold as [|ts l Hts _ IH]; [done |].
    rewrite filter_cons, IH. case_decide; [lia | done]. }
  pose proof (checkRateLimit_spec ce key now) as Hs. simpl in Hs.
  rewrite Hvalid in Hs. simpl in Hs. case_decide; [lia |].
  destruct Hs as [-> ->]. by rewrite lookup_insert_eq.
Qed.

Lemma step_rate_config s s' :
  step s s' ->
  rateLimit s'.1 = rateLimit s.1 /\ rateLimitWindow s'.1 = rateLimitWindow s.1.
Proof.
  intros Hstep.
  destruct Hstep as [ce ts req key a Hv | ce ts1 req a ts2 Hs
                    | ce ts1 req a ts2 free Hs | ce ts1 req a ts2 He
                    | ce ts1 req a ts2 r He | ce ts1 ts2]; cbn [fst snd];
    try done.
  - by pose proof (checkRateLimit_frame ce key (arr_now a))
         as [(_ & _ & _ & _ & _ & _ & Hn & Hw) _].
  - unfold addToHistory. by destruct (100 <? _).
Qed.

Lemma step_tracker s s' :
  step s s' ->
  rateLimitTracker s'.1 = rateLimitTracker s.1 \/
  exists key now,
    (checkRateLimit s.1 key now).2 = None /\
    rateLimitTracker s'.1 =
      <[key := validTimestamps s.1 key now ++ [now]]> (rateLimitTracker s.1).
Proof.
  intros Hstep.
  destruct Hstep as [ce ts req key a Hv | ce ts1 req a ts2 Hs
                    | ce ts1 req a ts2 free Hs | ce ts1 req a ts2 He
                    | ce ts1 req a ts2 r He | ce ts1 ts2]; cbn [fst snd];
    try (by left).
  - pose proof (checkRateLimit_spec ce key (arr_now a)) as Hs. simpl in Hs.
    case_decide.
    + left. by destruct Hs as [-> _].
    + right. exists key, (arr_now a). done.
  - left. unfold addToHistory. by destruct (100 <? _).
Qed.

(** X10: in every state an agent can reach from a fresh executor, under
    any interleaving of calls, each key the tracker knows has at least one
    and at most [rateLimit] timestamps recorded; and no step ever removes a
    key from the tracker. *)
Theorem tracker_bounded_keys_kept :
  (forall GetEnv json trim scanf ce0 s k l,
     NewCommandExecutor GetEnv json trim scanf = Some ce0 ->
     reachable ce0 s ->
     rateLimitTracker s.1 !! k = Some l ->
     1 <= length l /\ (Z.of_nat (length l) <= rateLimit ce0)%Z) /\
  (forall s s' k,
     step s s' ->
     is_Some (rateLimitTracker s.1 !! k) ->
     is_Some (rateLimitTracker s'.1 !! k)).
Proof.
  split.
  - intros GetEnv json trim scanf ce0 s k l Hnew Hreach.
    apply NewCommandExecutor_fresh in Hnew as (_ & Hempty & _ & _ & _ & Hn).
    revert k l. unfold reachable in Hreach.
    assert (Hinv : rateLimit s.1 = rateLimit ce0 /\
                   forall k l, rateLimitTracker s.1 !! k = Some l ->
                     1 <= length l /\ (Z.of_nat (length l) <= rateLimit ce0)%Z);
      [| by destruct Hinv].
    revert s Hreach.
    apply (rtc_ind_r (fun s => rateLimit s.1 = rateLimit ce0 /\
             forall k l, rateLimitTracker s.1 !! k = Some l ->
               1 <= length l /\ (Z.of_nat (length l) <= rateLimit ce0)%Z)).
    + split; [done |]. intros k l. simpl. by rewrite Hempty, lookup_empty.
    + intros s s' _ Hstep [Hrate IH].
      pose proof (step_rate_config s s' Hstep) as [Hrate' _].
      split; [congruence |].
      destruct (step_tracker s s' Hstep)
        as [-> | (key & now & Hpass & ->)]; [done |].
      intros k l. destruct (decide (k = key)) as [-> | Hne].
      * rewrite lookup_insert_eq. intros [= <-]. rewrite length_app. simpl.
        pose proof (checkRateLimit_spec s.1 key now) as Hs. simpl in Hs.
        case_decide; [by destruct Hs as [_ Hs] |]. lia.
      * rewrite lookup_insert_ne by done. apply IH.
  - intros s s' k Hstep Hk.
    destruct (step_tracker s s' Hstep) as [-> | (key & now & _ & ->)]; [done |].
    destruct (decide (k = key)) as [-> | Hne].
    + rewrite lookup_insert_eq. eauto.
    + by rewrite lookup_insert_ne.
Qed.

End RateLimitMore.

Lemma rate_limit_per_key_witness :
  rateLimitTracker (checkRateLimit (sleepers 5) "alice" 9).1 !! "default" =
  Some [0; 1; 2; 3; 4]%Z.
Proof.
  destruct (rate_limit_per_key (sleepers 5) (sleepers 5) "alice" 9)
    as [Hother _].
  rewrite (Hother "default"); [vm_compute; reflexivity | discriminate].
Defined.

Lemma rate_limit_recovers_witness :
  let ce := (burst production_executor "default"
               (map (fun i => Z.of_nat i * Second)%Z (seq 0 10))).1 in
  (checkRateLimit ce "default" (10 * Second)).2 <> None /\
  (checkRateLimit ce "default" (69 * Second)).2 = None /\
  rateLimitTracker (checkRateLimit ce "default" (69 * Second)).1 !! "default"
    = Some [69 * Second]%Z.
Proof.
  intros ce. split; [vm_compute; discriminate |].
  apply (rate_limit_recovers ce "default" (69 * Second)).
  - vm_compute. reflexivity.
  - apply (bool_decide_unpack _). vm_compute. exact I.
Defined.

Lemma tracker_bounded_keys_kept_witness :
  rateLimitTracker after_one_run !! "default" = Some [0%Z] /\
  1 <= length [0%Z] /\ (Z.of_nat (length [0%Z]) <= 10)%Z.
Proof.
  assert (Hl : rateLimitTracker after_one_run !! "default" = Some [0%Z])
    by (vm_compute; reflexivity).
  split; [exact Hl |].
  destruct tracker_bounded_keys_kept as [Hbound _].
  apply (Hbound (fun _ => None) (fun _ => None) id (fun _ => None)
           production_executor (after_one_run, []) "default" [0%Z] eq_refl);
    [apply ExecuteCommand_steps | exact Hl].
Defined.

(** ** More on the history *)

Lemma last_drop {A} (l : list A) (n : nat) :
  n < length l -> last (drop n l) = last l.
Proof.
  intros Hn. rewrite !last_lookup, lookup_drop, length_drop.
  f_equal. lia.
Qed.

Lemma most_recent_app {A} (n : nat) (l k : list A) :
  most_recent n (most_recent n l ++ k) = most_recent n (l ++ k).
Proof.
  unfold most_recent. rewrite !length_app, length_drop.
  destruct (Nat.le_gt_cases (length l) n) as [Hle | Hgt].
  - replace (length l - n) with 0 by lia. rewrite drop_0. f_equal. lia.
  - assert (Hsplit : l ++ k =
                     take (length l - n) l ++ (drop (length l - n) l ++ k))
      by by rewrite app_assoc, take_drop.
    rewrite Hsplit.
    replace (length l + length k - n)
      with (length (take (length l - n) l) + length k)
      by (rewrite length_take; lia).
    rewrite drop_app_add. f_equal. lia.
Qed.

(** X11: starting from a history of at most 100 entries, recording any
    number of entries one after the other leaves exactly the 100 most
    recent of all entries, old and new, in the order they were recorded
    (all of them while there are fewer than 100). *)
Theorem history_is_last_hundred (ce : CommandExecutor)
    (entries : list CommandHistoryEntry) :
  length (history ce) <= 100 ->
  history (addAllToHistory ce entries) =
    most_recent 100 (history ce ++ entries).
Proof.
  unfold addAllToHistory. revert ce.
  induction entries as [|e es IH]; intros ce Hlen.
  - simpl. rewrite app_nil_r. unfold most_recent.
    replace (length (history ce) - 100) with 0 by lia. by rewrite drop_0.
  - simpl. destruct (addToHistory_spec ce e) as (Hh & Hl & _).
    rewrite IH by lia. rewrite Hh.
    assert (Hsame : most_recent (min (S (length (history ce))) 100)
                      (history ce ++ [e]) =
                    most_recent 100 (history ce ++ [e])).
    { unfold most_recent. rewrite length_app. simpl. f_equal. lia. }
    rewrite Hsame, most_recent_app, <- app_assoc. done.
Qed.

(** X12: right after an entry has been recorded, [GetHistory] returns it
    as the last element of its result, whatever the limit is - positive,
    zero or negative. *)
Theorem recorded_entry_is_returned_last (ce : CommandExecutor)
    (e : CommandHistoryEntry) (limit : Z) :
  last (GetHistory (addToHistory ce e) limit) = Some e.
Proof.
  rewrite <- (addToHistory_last ce e).
  destruct (addToHistory_spec ce e) as (_ & Hlen & _).
  unfold GetHistory. apply last_drop.
  destruct (_ || _)%Z eqn:Hc; [lia |].
  apply orb_false_iff in Hc as [Hpos _]. lia.
Qed.

Lemma history_is_last_hundred_witness :
  history (addAllToHistory production_executor
             [entry_of (command_only "/bin/ls") 1 (run_ok [] 0);
              entry_of (command_only "/bin/pwd") 2 (run_ok [] 0)]) =
  [entry_of (command_only "/bin/ls") 1 (run_ok [] 0);
   entry_of (command_only "/bin/pwd") 2 (run_ok [] 0)].
Proof.
  rewrite (history_is_last_hundred production_executor); [reflexivity |].
  simpl. lia.
Defined.

(** ** More on the bounded sink *)

Lemma Write_bytesLeft (lw : limitedWriter) (p : list byte) :
  (0 <= bytesLeft lw)%Z ->
  (0 <= bytesLeft (Write lw p).1.1)%Z /\
  (Z.of_nat (length (writer (Write lw p).1.1)) + bytesLeft (Write lw p).1.1 =
   Z.of_nat (length (writer lw)) + bytesLeft lw)%Z /\
  maxSize (Write lw p).1.1 = maxSize lw.
Proof.
  intros Hpos. unfold Write.
  destruct (Z.leb_spec (bytesLeft lw) 0); simpl; [done |].
  destruct (Z.ltb_spec (bytesLeft lw) (Z.of_nat (length p))); simpl;
    rewrite length_app, ?length_take; repeat split; lia.
Qed.

(** X13: a sink created with a capacity of zero or more keeps, through
    any sequence of writes, a remaining budget that is never negative and
    that adds up with the bytes it holds to the capacity; the capacity
    itself never changes. *)
Theorem sink_budget_invariant (max : Z) (ps : list (list byte)) :
  (0 <= max)%Z ->
  let lw := Writes (new_limitedWriter max) ps in
  (0 <= bytesLeft lw)%Z /\
  (Z.of_nat (length (writer lw)) + bytesLeft lw = max)%Z /\
  maxSize lw = max.
Proof.
  intros Hmax. unfold Writes.
  assert (Hgen : forall lw,
            (0 <= bytesLeft lw)%Z ->
            let lw' := fold_left (fun lw p => (Write lw p).1.1) ps lw in
            (0 <= bytesLeft lw')%Z /\
            (Z.of_nat (length (writer lw')) + bytesLeft lw' =
             Z.of_nat (length (writer lw)) + bytesLeft lw)%Z /\
            maxSize lw' = maxSize lw).
  { induction ps as [|p ps IH]; intros lw Hpos; simpl; [done |].
    destruct (Write_bytesLeft lw p Hpos) as (H1 & H2 & H3).
    destruct (IH _ H1) as (H4 & H5 & H6). repeat split; [done | lia | congruence]. }
  destruct (Hgen (new_limitedWriter max) Hmax) as (H1 & H2 & H3).
  simpl in *. repeat split; [done | lia | done].
Qed.

Lemma WriteCounts_full (ps : list (list byte)) (lw : limitedWriter) :
  (bytesLeft lw <= 0)%Z ->
  WriteCounts lw ps = map (fun p => Z.of_nat (length p)) ps.
Proof.
  revert lw. induction ps as [|p ps IH]; intros lw Hle; [done |].
  cbn [WriteCounts map]. unfold Write at 1 2.
  destruct (Z.leb_spec (bytesLeft lw) 0); [| lia]. cbn [fst snd].
  by rewrite IH.
Qed.

Lemma Writes_full (ps : list (list byte)) (lw : limitedWriter) :
  (bytesLeft lw <= 0)%Z -> Writes lw ps = lw.
Proof.
  intros Hle. unfold Writes. induction ps as [|p ps IH]; [done |].
  cbn [fold_left].
  assert (Hw : (Write lw p).1.1 = lw).
  { unfold Write. by destruct (Z.leb_spec (bytesLeft lw) 0); [| lia]. }
  rewrite Hw. exact IH.
Qed.

(** X14: in any sequence of writes to a sink, every [Write] reports a
    count between zero and the length it was given, and at most one of them
    reports less than that length, namely the one the capacity ends in;
    every later [Write] reports its whole length as written although the
    sink stores none of it: after each later [Write] the sink, buffer and
    budget, is what it was right after the short one. *)
Theorem at_most_one_short_write (max : Z) (ps : list (list byte)) :
  let counts := WriteCounts (new_limitedWriter max) ps in
  Forall2 (fun n p => (0 <= n <= Z.of_nat (length p))%Z) counts ps /\
  (forall i j n m p q,
     counts !! i = Some n -> ps !! i = Some p -> (n < Z.of_nat (length p))%Z ->
     counts !! j = Some m -> ps !! j = Some q -> (m < Z.of_nat (length q))%Z ->
     i = j) /\
  (forall i j n p q,
     counts !! i = Some n -> ps !! i = Some p -> (n < Z.of_nat (length p))%Z ->
     i < j -> ps !! j = Some q ->
     counts !! j = Some (Z.of_nat (length q))) /\
  (forall i j n p,
     counts !! i = Some n -> ps !! i = Some p -> (n < Z.of_nat (length p))%Z ->
     i < j ->
     Writes (new_limitedWriter max) (take (S j) ps) =
     Writes (new_limitedWriter max) (take (S i) ps)).
Proof.
  intros counts. unfold counts. clear counts.
  generalize (new_limitedWriter max) as lw.
  assert (Hshort : forall lw p,
            ((Write lw p).1.2 < Z.of_nat (length p))%Z ->
            (bytesLeft (Write lw p).1.1 <= 0)%Z).
  { intros lw p. unfold Write.
    destruct (Z.leb_spec (bytesLeft lw) 0); simpl; [lia |].
    destruct (Z.ltb_spec (bytesLeft lw) (Z.of_nat (length p))); simpl; lia. }
  assert (Hlater : forall ps lw i j n p q,
            WriteCounts lw ps !! i = Some n -> ps !! i = Some p ->
            (n < Z.of_nat (length p))%Z -> i < j -> ps !! j = Some q ->
            WriteCounts lw ps !! j = Some (Z.of_nat (length q))).
  { clear ps. induction ps as [|p0 ps IH]; intros lw i j n p q Hi Hp Hn Hij Hq;
      [done |].
    destruct j as [|j]; [lia |]. cbn [WriteCounts]. simpl in Hq.
    destruct i as [|i].
    - simpl in Hi, Hp. injection Hi as <-. injection Hp as <-.
      rewrite WriteCounts_full by by apply Hshort.
      simpl. rewrite list_lookup_fmap, Hq. done.
    - simpl in *. apply (IH _ i j n p q); try done. lia. }
  assert (Hkept : forall ps lw i j n p,
            WriteCounts lw ps !! i = Some n -> ps !! i = Some p ->
            (n < Z.of_nat (length p))%Z -> i < j ->
            Writes lw (take (S j) ps) = Writes lw (take (S i) ps)).
  { clear ps. induction ps as [|p0 ps IH]; intros lw i j n p Hi Hp Hn Hij;
      [done |].
    destruct j as [|j]; [lia |]. cbn [WriteCounts] in Hi.
    change (Writes lw (take (S (S j)) (p0 :: ps)))
      with (Writes (Write lw p0).1.1 (take (S j) ps)).
    destruct i as [|i].
    - simpl in Hi, Hp. injection Hi as <-. injection Hp as <-.
      rewrite Writes_full by by apply Hshort. done.
    - change (Writes lw (take (S (S i)) (p0 :: ps)))
        with (Writes (Write lw p0).1.1 (take (S i) ps)).
      simpl in Hi, Hp. apply (IH _ i j n p); try done. lia. }
  intros lw. split; [| split; [| split]].
  - revert lw. induction ps as [|p ps IH]; intros lw; [constructor |].
    cbn [WriteCounts]. constructor; [| apply IH].
    unfold Write. destruct (Z.leb_spec (bytesLeft lw) 0); simpl; [lia |].
    destruct (Z.ltb_spec (bytesLeft lw) (Z.of_nat (length p))); simpl; lia.
  - intros i j n m p q Hi Hp Hn Hj Hq Hm.
    destruct (Nat.lt_trichotomy i j) as [Hlt | [-> | Hgt]]; [| done |].
    + rewrite (Hlater ps lw i j n p q Hi Hp Hn Hlt Hq) in Hj.
      injection Hj as <-. lia.
    + rewrite (Hlater ps lw j i m q p Hj Hq Hm Hgt Hp) in Hi.
      injection Hi as <-. lia.
  - intros i j n p q. apply Hlater.
  - intros i j n p. apply Hkept.
Qed.

Lemma sink_budget_invariant_witness :
  bytesLeft (Writes (new_limitedWriter 3)
               [ ["a"; "b"]; ["c"; "d"; "e"]; ["f"] ]%byte) = 0%Z.
Proof.
  assert (H : (0 <= 3)%Z) by lia.
  destruct (sink_budget_invariant 3
              [ ["a"; "b"]; ["c"; "d"; "e"]; ["f"] ]%byte H) as (_ & Hsum & _).
  vm_compute in Hsum. vm_compute. reflexivity.
Defined.

Lemma at_most_one_short_write_witness :
  WriteCounts (new_limitedWriter 3)
    [ ["a"; "b"]; ["c"; "d"; "e"]; ["f"] ]%byte !! 2 = Some 1%Z.
Proof.
  destruct (at_most_one_short_write 3
              [ ["a"; "b"]; ["c"; "d"; "e"]; ["f"] ]%byte)
    as (_ & _ & Hlater & _).
  apply (Hlater 1 2 1%Z ["c"; "d"; "e"]%byte ["f"]%byte);
    [reflexivity | reflexivity | simpl; lia | lia | reflexivity].
Defined.

(** ** More on the configuration *)

Section ConfigurationMore.

Context {rt : GoRuntime}.

Variable GetEnv : string -> option string.
Variable json_Unmarshal : string -> option (list string).
Variable strings_TrimSpace : string -> string.
Variable Sscanf_d : string -> option Z.

Lemma loadConfig_limits (ce : CommandExecutor) :
  let ce' := loadConfig GetEnv json_Unmarshal strings_TrimSpace Sscanf_d ce in
  maxOutputSize ce' =
    match GetEnv "COMMAND_MAX_OUTPUT" with
    | Some s => default (maxOutputSize ce) (Sscanf_d s)
    | None => maxOutputSize ce
    end /\
  rateLimit ce' =
    match GetEnv "COMMAND_RATE_LIMIT" with
    | Some s => match Sscanf_d s with
                | Some limit => if (0 <? limit)%Z then limit else rateLimit ce
                | None => rateLimit ce
                end
    | None => rateLimit ce
    end /\
  maxConcurrent ce' =
    match GetEnv "COMMAND_MAX_CONCURRENT" with
    | Some s => match Sscanf_d s with
                | Some max => if (0 <? max)%Z then max else maxConcurrent ce
                | None => maxConcurrent ce
                end
    | None => maxConcurrent ce
    end.
Proof.
  unfold loadConfig.
  repeat match goal with
         | |- context [match ?x with _ => _ end] => destruct x eqn:?
         end; simpl; done.
Qed.

Lemma loadConfig_lists (ce : CommandExecutor) :
  let ce' := loadConfig GetEnv json_Unmarshal strings_TrimSpace Sscanf_d ce in
  whitelist ce' =
    match GetEnv "COMMAND_WHITELIST" with
    | Some w =>
        if String.eqb w "allow_all" then None
        else if HasPrefix w "[" then
          match json_Unmarshal w with
          | Some commands => Some commands
          | None => whitelist ce
          end
        else Some (map strings_TrimSpace (Split_comma w))
    | None => Some default_whitelist
    end /\
  allowedPaths ce' =
    match GetEnv "ALLOWED_PATHS" with
    | Some paths =>
        if HasPrefix paths "[" then
          match json_Unmarshal paths with
          | Some pathList => pathList
          | None => allowedPaths ce
          end
        else map strings_TrimSpace (Split_comma paths)
    | None => default_allowedPaths
    end.
Proof.
  unfold loadConfig.
  repeat match goal with
         | |- context [match ?x with _ => _ end] => destruct x eqn:?
         end; simpl; done.
Qed.

Lemma NewCommandExecutor_Some (ce : CommandExecutor) :
  NewCommandExecutor GetEnv json_Unmarshal strings_TrimSpace Sscanf_d = Some ce ->
  (maxConcurrent (loadConfig GetEnv json_Unmarshal strings_TrimSpace Sscanf_d
                    executor_literal) <= 5)%Z /\
  ce = set_concurrentSemaphore
         (Z.to_nat (maxConcurrent
                      (loadConfig GetEnv json_Unmarshal strings_TrimSpace
                         Sscanf_d executor_literal)))
         (loadConfig GetEnv json_Unmarshal strings_TrimSpace Sscanf_d
            executor_literal).
Proof.
  unfold NewCommandExecutor, semaphore_capacity.
  set (loaded := loadConfig _ _ _ _ _).
  destruct (Z.leb_spec (maxConcurrent loaded) 5); [| done].
  by intros [= <-].
Qed.

(** X15: the constructor fails to return exactly when
    COMMAND_MAX_CONCURRENT is set to an integer above 5: it then blocks on
    the sixth token it sends into its semaphore channel of capacity 5. *)
Theorem constructor_blocks_iff :
  NewCommandExecutor GetEnv json_Unmarshal strings_TrimSpace Sscanf_d = None <->
  exists s max, GetEnv "COMMAND_MAX_CONCURRENT" = Some s /\
                Sscanf_d s = Some max /\ (5 < max)%Z.
Proof.
  unfold NewCommandExecutor, semaphore_capacity.
  destruct (loadConfig_limits executor_literal) as (_ & _ & Hmax).
  cbv zeta in Hmax. rewrite Hmax. simpl.
  destruct (GetEnv "COMMAND_MAX_CONCURRENT") as [s|].
  - destruct (Sscanf_d s) as [max|] eqn:Hs.
    + destruct (Z.ltb_spec 0 max).
      * destruct (Z.leb_spec max 5); split; try done.
        -- intros (s' & max' & Hs' & Hm' & ?). simplify_eq. lia.
        -- intros _. by exists s, max.
      * split; [done |].
        intros (s' & max' & Hs' & Hm' & ?). simplify_eq. lia.
    + split; [done |]. intros (s' & max' & Hs' & Hm' & _). simplify_eq.
  - split; [done |]. intros (s' & max' & ? & _). done.
Qed.

(** X16: whatever the environment holds, an executor that has been built
    starts with an empty history and tracker, the fixed blacklist, a window
    of one minute, a rate limit of at least 1 (10 unless the environment
    gives a positive integer), between 1 and 5 execution slots, all of
    them free. *)
Theorem constructed_executor_sane (ce : CommandExecutor) :
  NewCommandExecutor GetEnv json_Unmarshal strings_TrimSpace Sscanf_d = Some ce ->
  history ce = [] /\ rateLimitTracker ce = ∅ /\
  blacklist ce = dangerous_commands /\ rateLimitWindow ce = Minute /\
  (1 <= rateLimit ce)%Z /\
  (rateLimit ce = 10%Z \/
   exists s, GetEnv "COMMAND_RATE_LIMIT" = Some s /\
             Sscanf_d s = Some (rateLimit ce)) /\
  (1 <= maxConcurrent ce <= 5)%Z /\
  Z.of_nat (concurrentSemaphore ce) = maxConcurrent ce.
Proof.
  intros Hnew.
  pose proof (NewCommandExecutor_fresh _ _ _ _ _ Hnew)
    as (Hh & Ht & Hb & Hw & Hsem & Hn).
  destruct (NewCommandExecutor_Some ce Hnew) as [Hle Hce].
  destruct (loadConfig_limits executor_literal) as (_ & Hrate & Hmax).
  cbv zeta in Hrate, Hmax.
  set (loaded := loadConfig _ _ _ _ _) in *.
  assert (Hr : rateLimit ce = rateLimit loaded) by by rewrite Hce.
  assert (Hm : maxConcurrent ce = maxConcurrent loaded) by by rewrite Hce.
  clearbody loaded.
  assert (Hpos : (0 < maxConcurrent loaded)%Z).
  { rewrite Hmax. change (maxConcurrent executor_literal) with 5%Z.
    destruct (GetEnv "COMMAND_MAX_CONCURRENT") as [s|]; [| lia].
    destruct (Sscanf_d s) as [max|]; [| lia].
    destruct (Z.ltb_spec 0 max); lia. }
  split; [done |]. split; [done |]. split; [done |]. split; [done |].
  split; [lia |]. split; [| split; [lia | done]].
  rewrite Hr, Hrate. change (rateLimit executor_literal) with 10%Z.
  destruct (GetEnv "COMMAND_RATE_LIMIT") as [s|]; [| by left].
  destruct (Sscanf_d s) as [limit|] eqn:Hs; [| by left].
  destruct (0 <? limit)%Z; [right; by exists s | by left].
Qed.

(** X17: the executor is built with the allow-all whitelist (nil) exactly
    when COMMAND_WHITELIST is "allow_all" or is a value that begins with
    "[" and does not parse as a JSON array of strings: a malformed JSON
    whitelist switches the whitelist check off. *)
Theorem whitelist_off_iff (ce : CommandExecutor) :
  NewCommandExecutor GetEnv json_Unmarshal strings_TrimSpace Sscanf_d = Some ce ->
  (whitelist ce = None <->
   GetEnv "COMMAND_WHITELIST" = Some "allow_all" \/
   exists w, GetEnv "COMMAND_WHITELIST" = Some w /\
             HasPrefix w "[" = true /\ json_Unmarshal w = None) /\
  (whitelist ce = None ->
   forall command, ValidateCommand ce command = None <->
     find (Contains command) (blacklist ce) = None /\
     find (Contains command) injectionPatterns = None /\
     (filepath_IsAbs command = true ->
      existsb (fun path => HasPrefix (filepath_Dir command) path)
              (allowedPaths ce) = true)).
Proof.
  intros Hnew. destruct (NewCommandExecutor_Some ce Hnew) as [_ Hce].
  destruct (loadConfig_lists executor_literal) as [Hwl _].
  cbv zeta in Hwl.
  set (loaded := loadConfig _ _ _ _ _) in *.
  assert (Hw : whitelist ce = whitelist loaded) by by rewrite Hce.
  clearbody loaded. change (whitelist executor_literal) with (@None (list string)) in Hwl.
  split.
  - rewrite Hw, Hwl.
    destruct (GetEnv "COMMAND_WHITELIST") as [w|].
    + destruct (String.eqb w "allow_all") eqn:Heq.
      { apply String.eqb_eq in Heq. rewrite Heq. split; [by left | done]. }
      apply String.eqb_neq in Heq.
      destruct (HasPrefix w "[") eqn:Hpre.
      * destruct (json_Unmarshal w) eqn:Hj.
        -- split; [done |].
           intros [? | (w' & ? & _ & Hj')]; simplify_eq; congruence.
        -- split; [| done]. intros _. right. by exists w.
      * split; [done |].
        intros [? | (w' & ? & Hpre' & _)]; simplify_eq; congruence.
    + split; [done |]. intros [? | (w' & ? & _)]; done.
  - intros Hoff command. rewrite ValidateCommand_None. rewrite Hoff.
    split; [tauto |]. intros (H1 & H2 & H3). repeat split; try done.
Qed.

(** X18: when ALLOWED_PATHS begins with "[" and does not parse as a JSON
    array of strings, the executor is built with no allowed path at all,
    and it refuses every command given as an absolute path. *)
Theorem malformed_allowed_paths_refuse_absolute (ce : CommandExecutor)
    (paths command : string) :
  NewCommandExecutor GetEnv json_Unmarshal strings_TrimSpace Sscanf_d = Some ce ->
  GetEnv "ALLOWED_PATHS" = Some paths ->
  HasPrefix paths "[" = true ->
  json_Unmarshal paths = None ->
  allowedPaths ce = [] /\
  (filepath_IsAbs command = true -> ValidateCommand ce command <> None).
Proof.
  intros Hnew Hp Hpre Hj. destruct (NewCommandExecutor_Some ce Hnew) as [_ Hce].
  destruct (loadConfig_lists executor_literal) as [_ Hpaths].
  cbv zeta in Hpaths. rewrite Hp, Hpre, Hj in Hpaths.
  set (loaded := loadConfig _ _ _ _ _) in *.
  assert (Ha : allowedPaths ce = []) by (rewrite Hce; exact Hpaths).
  split; [exact Ha |].
  intros Habs Hok. apply ValidateCommand_None in Hok as (_ & _ & Hdir & _).
  specialize (Hdir Habs). rewrite Ha in Hdir. done.
Qed.

Lemma response_output_bound ce req key a r :
  String.length (Stdout (ExecuteCommand ce req key a r).1.2)
    <= Z.to_nat (maxOutputSize ce) /\
  String.length (Stderr (ExecuteCommand ce req key a r).1.2)
    <= Z.to_nat (maxOutputSize ce).
Proof.
  pose proof (refused_response ce req key a r) as Href.
  unfold reaches_execution in Href. unfold ExecuteCommand in *.
  pose proof (enter_frame ce req key a) as (_ & _ & _ & _ & Hmax & _).
  destruct (enter ce req key a) as [ce1 [refused | cmd]].
  - destruct (Href eq_refl) as (_ & _ & Ho & He & _).
    cbn [fst snd] in *. rewrite Ho, He. simpl. lia.
  - cbn [fst] in Hmax. unfold complete. cbn [fst snd Stdout Stderr].
    rewrite !length_string_of_list_byte, !captured_spec, !length_take, Hmax.
    lia.
Qed.

(** X19: COMMAND_MAX_OUTPUT is taken as it is parsed, with no check of its
    sign; when it is zero or negative, every response of the executor has
    empty [Stdout] and [Stderr]. *)
Theorem max_output_unchecked (ce : CommandExecutor) (s : string) (size : Z) :
  NewCommandExecutor GetEnv json_Unmarshal strings_TrimSpace Sscanf_d = Some ce ->
  GetEnv "COMMAND_MAX_OUTPUT" = Some s ->
  Sscanf_d s = Some size ->
  maxOutputSize ce = size /\
  ((size <= 0)%Z ->
   forall req key a r,
     Stdout (ExecuteCommand ce req key a r).1.2 = EmptyString /\
     Stderr (ExecuteCommand ce req key a r).1.2 = EmptyString).
Proof.
  intros Hnew Hs Hsize. destruct (NewCommandExecutor_Some ce Hnew) as [_ Hce].
  destruct (loadConfig_limits executor_literal) as (Hout & _ & _).
  cbv zeta in Hout. rewrite Hs, Hsize in Hout. simpl in Hout.
  assert (Hmax : maxOutputSize ce = size) by (rewrite Hce; exact Hout).
  split; [exact Hmax |].
  intros Hneg req key a r.
  destruct (response_output_bound ce req key a r) as [Ho He].
  rewrite Hmax in Ho, He.
  replace (Z.to_nat size) with 0 in Ho, He by lia.
  destruct (Stdout _); [| simpl in Ho; lia].
  destruct (Stderr _); [| simpl in He; lia]. done.
Qed.

(** X20: widening the policy never refuses what was accepted: a command
    that passes validation still passes when patterns are taken off the
    blacklist, directories are added to the allowed paths, and entries are
    added to the whitelist or the whitelist is switched off. *)
Theorem validation_monotone (ce ce' : CommandExecutor) (command : string) :
  (forall p, In p (blacklist ce') -> In p (blacklist ce)) ->
  (forall p, In p (allowedPaths ce) -> In p (allowedPaths ce')) ->
  (forall wl', whitelist ce' = Some wl' ->
     exists wl, whitelist ce = Some wl /\ forall c, In c wl -> In c wl') ->
  ValidateCommand ce command = None ->
  ValidateCommand ce' command = None.
Proof.
  intros Hb Hp Hw. rewrite !ValidateCommand_None, !find_None_iff.
  intros (H1 & H2 & H3 & H4). repeat split; try done.
  - intros p Hin. apply H1. by apply Hb.
  - intros Habs. apply existsb_exists.
    destruct (proj1 (existsb_exists _ _) (H3 Habs)) as (path & Hin & Hpre).
    exists path. split; [by apply Hp | done].
  - intros wl' Hwl'. destruct (Hw wl' Hwl') as (wl & Hwl & Hincl).
    apply existsb_exists.
    destruct (proj1 (existsb_exists _ _) (H4 wl Hwl)) as (c & Hin & Hc).
    exists c. split; [by apply Hincl | done].
Qed.

End ConfigurationMore.

Lemma constructed_executor_sane_witness :
  NewCommandExecutor (fun _ => None) (fun _ => None) id (fun _ => None)
    = Some production_executor /\
  (1 <= maxConcurrent production_executor <= 5)%Z.
Proof.
  assert (H : NewCommandExecutor (fun _ => None) (fun _ => None) id
                (fun _ => None) = Some production_executor) by reflexivity.
  split; [exact H |].
  destruct (constructed_executor_sane _ _ _ _ _ H)
    as (_ & _ & _ & _ & _ & _ & Hm & _).
  exact Hm.
Defined.

Lemma whitelist_off_iff_witness :
  NewCommandExecutor
    (fun k => if String.eqb k "COMMAND_WHITELIST" then Some "[oops" else None)
    (fun _ => None) id (fun _ => None) = Some allow_all_executor /\
  whitelist allow_all_executor = None.
Proof.
  assert (H : NewCommandExecutor
                (fun k => if String.eqb k "COMMAND_WHITELIST"
                          then Some "[oops" else None)
                (fun _ => None) id (fun _ => None) = Some allow_all_executor)
    by reflexivity.
  split; [exact H |].
  destruct (whitelist_off_iff _ _ _ _ _ H) as [Hiff _].
  apply Hiff. right. exists "[oops". by repeat split.
Defined.

Lemma malformed_allowed_paths_refuse_absolute_witness :
  NewCommandExecutor
    (fun k => if String.eqb k "ALLOWED_PATHS" then Some "[oops" else None)
    (fun _ => None) id (fun _ => None)
    = Some (set_allowedPaths [] production_executor) /\
  ValidateCommand (set_allowedPaths [] production_executor) "/bin/ls" <> None.
Proof.
  assert (H : NewCommandExecutor
                (fun k => if String.eqb k "ALLOWED_PATHS"
                          then Some "[oops" else None)
                (fun _ => None) id (fun _ => None)
              = Some (set_allowedPaths [] production_executor))
    by reflexivity.
  assert (Habs : filepath_IsAbs "/bin/ls" = true) by reflexivity.
  split; [exact H |].
  destruct (malformed_allowed_paths_refuse_absolute _ _ _ _ _ "[oops" "/bin/ls"
              H eq_refl eq_refl eq_refl) as [_ Hrefused].
  exact (Hrefused Habs).
Defined.

Lemma max_output_unchecked_witness :
  NewCommandExecutor
    (fun k => if String.eqb k "COMMAND_MAX_OUTPUT" then Some "0" else None)
    (fun _ => None) id (fun s => if String.eqb s "0" then Some 0%Z else None)
    = Some (set_limits 0 5 10 production_executor) /\
  Stdout (ExecuteCommand (set_limits 0 5 10 production_executor)
            (command_only "/bin/ls") "default" (arrival_at 0)
            (run_ok ["o"; "k"]%byte 0)).1.2 = EmptyString.
Proof.
  assert (H : NewCommandExecutor
                (fun k => if String.eqb k "COMMAND_MAX_OUTPUT"
                          then Some "0" else None)
                (fun _ => None) id
                (fun s => if String.eqb s "0" then Some 0%Z else None)
              = Some (set_limits 0 5 10 production_executor))
    by reflexivity.
  split; [exact H |].
  destruct (max_output_unchecked _ _ _ _ _ "0" 0%Z H eq_refl eq_refl)
    as [_ Hempty].
  apply Hempty. lia.
Defined.

Lemma validation_monotone_witness :
  ValidateCommand production_executor "/bin/ls" = None /\
  ValidateCommand allow_all_executor "/bin/ls" = None.
Proof.
  assert (H : ValidateCommand production_executor "/bin/ls" = None)
    by (vm_compute; reflexivity).
  split; [exact H |].
  apply (validation_monotone production_executor allow_all_executor "/bin/ls");
    [intros p Hp; exact Hp | intros p Hp; exact Hp | | exact H].
  intros wl' Hwl'. discriminate Hwl'.
Defined.

(** ** The agent's entry points *)

Lemma GetHistory_last_recorded (ce ce' : CommandExecutor)
    (e : CommandHistoryEntry) (limit : Z) :
  history ce' = history (addToHistory ce e) ->
  last (GetHistory ce' limit) = Some e.
Proof.
  intros Hh. rewrite <- (addToHistory_last ce e), <- Hh.
  destruct (addToHistory_spec ce e) as (_ & Hlen & _). rewrite <- Hh in Hlen.
  unfold GetHistory. apply last_drop.
  destruct (_ || _)%Z eqn:Hc; [lia |].
  apply orb_false_iff in Hc as [Hpos _]. lia.
Qed.

Section AgentProperties.

Context {rt : GoRuntime}.

Variable GetEnv : string -> option string.
Variable json_Unmarshal : string -> option (list string).
Variable strings_TrimSpace : string -> string.
Variable Sscanf_d : string -> option Z.

Lemma response_exit_code ce req key a r :
  reaches_execution ce req key a = true ->
  ExitCode (ExecuteCommand ce req key a r).1.2 = (outcome r).1 /\
  exists cmd, (ExecuteCommand ce req key a r).2 =
    [EvRun cmd; EvLog (Command req) (Args req) (outcome r).1 (since_start r)
                  (Workdir req)].
Proof.
  unfold reaches_execution, ExecuteCommand.
  destruct (enter ce req key a) as [ce1 [refused | cmd]]; [done |].
  intros _. split; [done |]. by exists cmd.
Qed.

(** X21: a call of the agent's [ExecuteCommand] that returns logs the
    request first and runs it under the rate-limit key "default".  When
    the request reaches the execution stage, [GetCommandHistory] on the
    agent afterwards ends, for every limit, with an entry holding the
    request's command and arguments, the start time and the exit code of
    the response; when it does not, the history query answers as before
    the call and nothing but the request record is logged. *)
Theorem agent_run_then_history (a a' : Agent) (req : CommandRequest)
    (arr : Arrival) (r : RunResult) (resp : CommandResponse)
    (tr : list AgentEvent) (limit : Z) :
  Agent_ExecuteCommand GetEnv json_Unmarshal strings_TrimSpace Sscanf_d
    a req arr r = Some (a', resp, tr) ->
  exists ce,
    ensureExecutor GetEnv json_Unmarshal strings_TrimSpace Sscanf_d a = Some ce /\
    commandExecutor a' = Some (ExecuteCommand ce req "default" arr r).1.1 /\
    hd_error tr = Some (AgRequested (Command req) (Args req)) /\
    if reaches_execution ce req "default" arr
    then exists e, last (GetCommandHistory a' limit) = Some e /\
                   entry_Command e = Command req /\ entry_Args e = Args req /\
                   Timestamp e = arr_start arr /\
                   entry_ExitCode e = ExitCode resp
    else GetCommandHistory a' limit = GetHistory ce limit /\
         tr = [AgRequested (Command req) (Args req)] /\
         ExitCode resp = (-1)%Z.
Proof.
  unfold Agent_ExecuteCommand.
  destruct (ensureExecutor _ _ _ _ a) as [ce|]; [| done].
  pose proof (ExecuteCommand_history ce req "default" arr r) as Hh.
  pose proof (response_exit_code ce req "default" arr r) as Hx.
  pose proof (refused_response ce req "default" arr r) as Hno.
  destruct (ExecuteCommand ce req "default" arr r) as [[ce' resp'] tr'] eqn:Hexec.
  cbn [fst snd] in *. intros [= <- <- <-].
  exists ce. rewrite Hexec. split; [done |]. split; [done |]. split; [done |].
  destruct (reaches_execution ce req "default" arr).
  - destruct (Hx eq_refl) as [Hcode _].
    exists (entry_of req (arr_start arr) r).
    split; [exact (GetHistory_last_recorded ce ce' _ limit Hh) |].
    by rewrite Hcode.
  - destruct (Hno eq_refl) as (Hcode & _ & _ & _ & _ & Htr).
    split; [| split; [by rewrite Htr | done]].
    unfold GetCommandHistory, GetHistory. cbn [commandExecutor].
    by rewrite Hh.
Qed.

End AgentProperties.

(** X22: the environment is read once.  After a call of the agent's
    [ExecuteCommand] or [ValidateCommand] has returned, the agent holds an
    executor, and every later call goes on with that executor whatever the
    environment has become in the meantime. *)
Theorem agent_reads_environment_once `{rt : GoRuntime}
    (GetEnv GetEnv' : string -> option string)
    (json json' : string -> option (list string))
    (trim trim' : string -> string) (scanf scanf' : string -> option Z)
    (a a1 a2 : Agent) (req : CommandRequest) (arr : Arrival) (r : RunResult)
    (resp : CommandResponse) (tr : list AgentEvent)
    (command : string) (err : option string) :
  (Agent_ExecuteCommand GetEnv json trim scanf a req arr r
     = Some (a1, resp, tr) ->
   exists ce, commandExecutor a1 = Some ce /\
              ensureExecutor GetEnv' json' trim' scanf' a1 = Some ce) /\
  (Agent_ValidateCommand GetEnv json trim scanf a command = Some (a2, err) ->
   exists ce, commandExecutor a2 = Some ce /\
              ensureExecutor GetEnv' json' trim' scanf' a2 = Some ce /\
              ensureExecutor GetEnv json trim scanf a = Some ce).
Proof.
  unfold Agent_ExecuteCommand, Agent_ValidateCommand. split.
  - destruct (ensureExecutor GetEnv json trim scanf a) as [ce|]; [| done].
    destruct (ExecuteCommand ce req "default" arr r) as [[ce' resp'] tr'].
    intros [= <- _ _]. by exists ce'.
  - destruct (ensureExecutor GetEnv json trim scanf a) as [ce|]; [| done].
    intros [= <- _]. by exists ce.
Qed.

Lemma agent_run_then_history_witness :
  exists e,
    last (GetCommandHistory
            {| commandExecutor :=
                 Some (ExecuteCommand production_executor
                         (command_only "/bin/ls") "default" (arrival_at 7)
                         (run_ok [] 0)).1.1 |} 1) = Some e /\
    entry_Command e = "/bin/ls".
Proof.
  assert (H : Agent_ExecuteCommand (fun _ => None) (fun _ => None) id
                (fun _ => None) {| commandExecutor := None |}
                (command_only "/bin/ls") (arrival_at 7) (run_ok [] 0)
              = Some ({| commandExecutor :=
                           Some (ExecuteCommand production_executor
                                   (command_only "/bin/ls") "default"
                                   (arrival_at 7) (run_ok [] 0)).1.1 |},
                      (ExecuteCommand production_executor
                         (command_only "/bin/ls") "default"
                         (arrival_at 7) (run_ok [] 0)).1.2,
                      AgRequested "/bin/ls" [] ::
                      map AgExecutor
                        (ExecuteCommand production_executor
                           (command_only "/bin/ls") "default"
                           (arrival_at 7) (run_ok [] 0)).2))
    by (vm_compute; reflexivity).
  destruct (agent_run_then_history _ _ _ _ _ _ _ _ _ _ _ 1 H)
    as (ce & Hce & _ & _ & Hhist).
  injection Hce as <-.
  destruct Hhist as (e & Hlast & Hcmd & _).
  exists e. split; [exact Hlast | exact Hcmd].
Defined.

Lemma agent_reads_environment_once_witness :
  ensureExecutor
    (fun k => if String.eqb k "COMMAND_WHITELIST" then Some "allow_all" else None)
    (fun _ => None) id (fun _ => None)
    {| commandExecutor := Some production_executor |}
  = Some production_executor.
Proof.
  assert (H : Agent_ValidateCommand (fun _ => None) (fun _ => None) id
                (fun _ => None) {| commandExecutor := None |} "/bin/ls"
              = Some ({| commandExecutor := Some production_executor |}, None))
    by (vm_compute; reflexivity).
  destruct (agent_reads_environment_once (fun _ => None)
              (fun k => if String.eqb k "COMMAND_WHITELIST"
                        then Some "allow_all" else None)
              (fun _ => None) (fun _ => None) id id
              (fun _ => None) (fun _ => None)
              {| commandExecutor := None |}
              {| commandExecutor := None |}
              {| commandExecutor := Some production_executor |}
              (command_only "/bin/ls") (arrival_at 0) (run_ok [] 0)
              (refusal EmptyString) [] "/bin/ls" None) as [_ Hval].
  destruct (Hval H) as (ce & Hce & Hlater & _).
  injection Hce as <-. exact Hlater.
Defined.

(** ** Package [db]: the connection string *)

Section PostgresDSNProperties.

Variable os_Getenv : string -> string.

Lemma eqb_empty (s : string) :
  String.eqb s EmptyString = true <-> s = EmptyString.
Proof. apply String.eqb_eq. Qed.

Lemma getEnv_empty_default (key : string) :
  getEnv os_Getenv key EmptyString = os_Getenv key.
Proof.
  unfold getEnv. by destruct (String.eqb_spec (os_Getenv key) EmptyString).
Qed.

Lemma getEnv_spec (key defaultValue : string) :
  (os_Getenv key = EmptyString -> getEnv os_Getenv key defaultValue = defaultValue) /\
  (os_Getenv key <> EmptyString -> getEnv os_Getenv key defaultValue = os_Getenv key).
Proof.
  unfold getEnv. destruct (String.eqb_spec (os_Getenv key) EmptyString); simpl;
    split; intros; congruence.
Qed.

(** X23: [getPostgresDSN] returns the empty string - which makes
    [InitPostgreSQL] give up - exactly when SONAR_HUB_POSTGRES_DSN,
    DATABASE_URL and SONAR_HUB_POSTGRES_PASSWORD are all empty or unset;
    the host, port, user, database and SSL mode never matter for that. *)
Theorem dsn_empty_iff :
  getPostgresDSN os_Getenv = EmptyString <->
  os_Getenv "SONAR_HUB_POSTGRES_DSN" = EmptyString /\
  os_Getenv "DATABASE_URL" = EmptyString /\
  os_Getenv "SONAR_HUB_POSTGRES_PASSWORD" = EmptyString.
Proof.
  unfold getPostgresDSN.
  destruct (String.eqb_spec (os_Getenv "SONAR_HUB_POSTGRES_DSN") EmptyString)
    as [Hdsn | Hdsn]; simpl; [| split; [congruence | tauto]].
  destruct (String.eqb_spec (os_Getenv "DATABASE_URL") EmptyString)
    as [Hurl | Hurl]; simpl; [| split; [congruence | tauto]].
  rewrite getEnv_empty_default.
  destruct (String.eqb_spec (os_Getenv "SONAR_HUB_POSTGRES_PASSWORD") EmptyString)
    as [Hpw | Hpw].
  - done.
  - split; [discriminate | tauto].
Qed.

(** X24: the order of precedence of the connection string.  A non-empty
    SONAR_HUB_POSTGRES_DSN is returned as it is; otherwise a non-empty
    DATABASE_URL is; otherwise, with a non-empty password, the string is
    assembled from the six components, each missing one replaced by its
    default (localhost, 5432, sonar, sonar, disable), and the components
    are inserted without quoting. *)
Theorem dsn_precedence :
  (os_Getenv "SONAR_HUB_POSTGRES_DSN" <> EmptyString ->
   getPostgresDSN os_Getenv = os_Getenv "SONAR_HUB_POSTGRES_DSN") /\
  (os_Getenv "SONAR_HUB_POSTGRES_DSN" = EmptyString ->
   os_Getenv "DATABASE_URL" <> EmptyString ->
   getPostgresDSN os_Getenv = os_Getenv "DATABASE_URL") /\
  (os_Getenv "SONAR_HUB_POSTGRES_DSN" = EmptyString ->
   os_Getenv "DATABASE_URL" = EmptyString ->
   os_Getenv "SONAR_HUB_POSTGRES_PASSWORD" <> EmptyString ->
   let component key defaultValue :=
     if String.eqb (os_Getenv key) EmptyString then defaultValue
     else os_Getenv key in
   getPostgresDSN os_Getenv =
     "host=" +:+ component "SONAR_HUB_POSTGRES_HOST" "localhost" +:+
     " port=" +:+ component "SONAR_HUB_POSTGRES_PORT" "5432" +:+
     " user=" +:+ component "SONAR_HUB_POSTGRES_USER" "sonar" +:+
     " password=" +:+ os_Getenv "SONAR_HUB_POSTGRES_PASSWORD" +:+
     " dbname=" +:+ component "SONAR_HUB_POSTGRES_DB" "sonar" +:+
     " sslmode=" +:+ component "SONAR_HUB_POSTGRES_SSLMODE" "disable").
Proof.
  unfold getPostgresDSN. split; [| split].
  - intros Hdsn. by apply String.eqb_neq in Hdsn as ->.
  - intros -> Hurl. simpl. by apply String.eqb_neq in Hurl as ->.
  - intros Hdsn Hurl Hpw. cbv zeta. rewrite Hdsn, Hurl. simpl. unfold getEnv.
    apply String.eqb_neq in Hpw. rewrite Hpw. simpl.
    repeat match goal with
           | |- context [String.eqb (os_Getenv ?k) EmptyString] =>
               destruct (String.eqb (os_Getenv k) EmptyString)
           end; first [reflexivity | discriminate].
Qed.

End PostgresDSNProperties.

Lemma dsn_precedence_witness :
  getPostgresDSN
    (fun k => if String.eqb k "SONAR_HUB_POSTGRES_PASSWORD" then "s3cret"
              else if String.eqb k "SONAR_HUB_POSTGRES_HOST" then "db.internal"
              else EmptyString)
  = "host=db.internal port=5432 user=sonar password=s3cret dbname=sonar sslmode=disable".
Proof.
  destruct (dsn_precedence
              (fun k => if String.eqb k "SONAR_HUB_POSTGRES_PASSWORD"
                        then "s3cret"
                        else if String.eqb k "SONAR_HUB_POSTGRES_HOST"
                             then "db.internal"
                             else EmptyString)) as (_ & _ & Hparts).
  rewrite Hparts; [reflexivity | reflexivity | reflexivity | discriminate].
Defined.

(** ** Package [db]: the tenant of a request *)

Lemma Value_string_WithValue (ctx : GoContext) (key key' : ctxKey)
    (val : ctxValue) :
  Value_string (WithValue ctx key val) key' =
    if ctxKey_eqb key key'
    then match val with
         | StringValue s => (s, true)
         | OtherValue => (EmptyString, false)
         end
    else Value_string ctx key'.
Proof.
  unfold Value_string, WithValue. simpl.
  destruct (ctxKey_eqb key key'); [by destruct val | done].
Qed.

Lemma GetTenantFromContext_WithTenantContext (ctx : GoContext)
    (tenantID schemaName : string) :
  GetTenantFromContext (WithTenantContext ctx tenantID schemaName) =
    if String.eqb tenantID EmptyString
    then inr "tenant ID not found in context"
    else if String.eqb schemaName EmptyString
         then inr "schema name not found in context"
         else inl {| TenantID := tenantID; SchemaName := schemaName |}.
Proof.
  unfold GetTenantFromContext, WithTenantContext.
  rewrite !Value_string_WithValue. simpl.
  destruct (String.eqb tenantID EmptyString); [done |].
  by destruct (String.eqb schemaName EmptyString).
Qed.

(** X25: what [WithTenantContext] stores, [GetTenantFromContext] reads
    back, whatever the context held before: with a non-empty tenant ID and
    schema name the result is exactly that pair; an empty tenant ID gives
    "tenant ID not found in context" and, failing that, an empty schema
    name gives "schema name not found in context" - even when the context
    underneath held a complete tenant. *)
Theorem tenant_context_round_trip (ctx : GoContext)
    (tenantID schemaName : string) :
  GetTenantFromContext (WithTenantContext ctx tenantID schemaName) =
    if String.eqb tenantID EmptyString
    then inr "tenant ID not found in context"
    else if String.eqb schemaName EmptyString
         then inr "schema name not found in context"
         else inl {| TenantID := tenantID; SchemaName := schemaName |}.
Proof. exact (GetTenantFromContext_WithTenantContext ctx tenantID schemaName). Qed.

(** X26: [GetTenantFromContext] succeeds exactly when the context holds a
    non-empty string under each of the two keys of the package, and then
    returns those two strings; values stored under any other key, before
    or after, make no difference. *)
Theorem tenant_lookup_spec (ctx : GoContext) :
  (forall tc, GetTenantFromContext ctx = inl tc <->
     Value ctx tenantContextKey = Some (StringValue (TenantID tc)) /\
     TenantID tc <> EmptyString /\
     Value ctx schemaContextKey = Some (StringValue (SchemaName tc)) /\
     SchemaName tc <> EmptyString) /\
  (forall name val,
     GetTenantFromContext (WithValue ctx (foreignKey name) val) =
     GetTenantFromContext ctx).
Proof.
  split.
  - intros [t s]. unfold GetTenantFromContext, Value_string. simpl.
    destruct (Value ctx tenantContextKey) as [[t'|]|]; simpl;
      try (split; [done | by intros ([=] & _)]).
    destruct (String.eqb_spec t' EmptyString) as [-> | Ht]; simpl.
    { split; [done |]. intros ([= <-] & Hne & _). done. }
    destruct (Value ctx schemaContextKey) as [[s'|]|]; simpl;
      try (split; [done | by intros (_ & _ & [=] & _)]).
    destruct (String.eqb_spec s' EmptyString) as [-> | Hs]; simpl.
    { split; [done |]. intros (_ & _ & [= <-] & Hne). done. }
    split.
    + intros [= -> ->]. done.
    + intros ([= ->] & _ & [= ->] & _). done.
  - intros name val. unfold GetTenantFromContext.
    by rewrite !Value_string_WithValue.
Qed.

(** X27: for a context made by [WithTenantContext] with a non-empty tenant
    ID and schema name, [WithTenantSchema] and [GetTenantDB] on an
    initialised database execute the single statement
    "SET search_path TO " followed by the schema name as it was given,
    unquoted and unchecked, and return no error; [GetTenantDB] on a
    database that is not initialised executes nothing and returns
    "database not initialized".  When the tenant cannot be read from the
    context no statement is executed at all. *)
Theorem search_path_follows_context (ctx : GoContext)
    (tenantID schemaName : string) :
  tenantID <> EmptyString -> schemaName <> EmptyString ->
  let ctx' := WithTenantContext ctx tenantID schemaName in
  WithTenantSchema ctx' = (["SET search_path TO " +:+ schemaName], None) /\
  GetTenantDB true ctx' = (["SET search_path TO " +:+ schemaName], None) /\
  GetTenantDB false ctx' = ([], Some "database not initialized") /\
  (forall initialized c err,
     (GetTenantDB initialized c).2 = Some err \/
     (WithTenantSchema c).2 = Some err ->
     (GetTenantDB initialized c).1 = [] /\
     ((WithTenantSchema c).2 = Some err -> (WithTenantSchema c).1 = [])).
Proof.
  intros Ht Hs ctx'. unfold ctx', WithTenantSchema, GetTenantDB.
  rewrite GetTenantFromContext_WithTenantContext.
  apply String.eqb_neq in Ht, Hs. rewrite Ht, Hs. simpl.
  repeat split; try done.
  - destruct initialized; simpl; [| done].
    destruct (GetTenantFromContext c); simpl in *; [| done].
    by destruct H.
  - by destruct (GetTenantFromContext c).
Qed.

Lemma search_path_follows_context_witness :
  WithTenantSchema (WithTenantContext [] "t1" "tenant_1; DROP SCHEMA public")
  = (["SET search_path TO tenant_1; DROP SCHEMA public"], None).
Proof.
  destruct (search_path_follows_context [] "t1" "tenant_1; DROP SCHEMA public")
    as [Hexec _]; [discriminate | discriminate |].
  exact Hexec.
Defined.

(** ** Package [db]: tenants and their schemas *)

Section TenantProperties.

Variable db_Exec : string -> option string.
Variable db_Create : Tenant -> Tenant + string.

(** X28: [CreateTenantSchema] executes CREATE SCHEMA first and the table
    statement only when that succeeded; it returns no error exactly when
    both statements succeed, logs "Tenant schema created" exactly then, and
    an error it returns begins with the statement's own prefix and ends
    with the database's message. *)
Theorem schema_creation_stops_at_first_failure (schemaName : string) :
  let createSchema := "CREATE SCHEMA IF NOT EXISTS " +:+ schemaName in
  let res := CreateTenantSchema db_Exec schemaName in
  (res.2 = None <->
   db_Exec createSchema = None /\
   db_Exec (createSystemsTable schemaName) = None) /\
  (In (DbInfo "Tenant schema created" schemaName) res.1 <-> res.2 = None) /\
  (forall err, db_Exec createSchema = Some err ->
     res = ([DbExec createSchema],
            Some ("failed to create schema " +:+ schemaName +:+ ": " +:+ err))) /\
  (forall err, db_Exec createSchema = None ->
     db_Exec (createSystemsTable schemaName) = Some err ->
     res = ([DbExec createSchema; DbExec (createSystemsTable schemaName)],
            Some ("failed to create systems table in schema " +:+ schemaName
                  +:+ ": " +:+ err))).
Proof.
  intros createSchema res. unfold res, CreateTenantSchema. fold createSchema.
  destruct (db_Exec createSchema) as [e1|];
    [| destruct (db_Exec (createSystemsTable schemaName)) as [e2|]]; simpl;
    repeat split; try done; try (by intros [? ?]); try (intros ? [= <-]; done);
    try (by intros [[=] | [[=] | []]]); try (by intros [[=] | []]);
    try (intros _; right; right; by left);
    try (intros ? _ [= <-]; done).
Qed.

(** X29: [CreateTenant] returns a tenant exactly when the record was
    stored and both schema statements succeeded, and the tenant is the
    stored record.  When storing fails nothing else is asked of the
    database; when the schema cannot be created the stored record is
    deleted as the last action and the schema's error is returned as it
    is.  In no case is a DROP SCHEMA issued: a schema created before the
    table statement failed stays behind. *)
Theorem tenant_creation_rolls_back (name schemaName : string) :
  let tenant := {| ID := EmptyString; Name := name;
                   tenant_SchemaName := schemaName; Active := true;
                   CreatedAt := 0; UpdatedAt := 0 |} in
  let createSchema := "CREATE SCHEMA IF NOT EXISTS " +:+ schemaName in
  let res := CreateTenant db_Exec db_Create name schemaName in
  hd_error res.1 = Some (DbCreate tenant) /\
  (forall stored, res.2 = inl stored <->
     db_Create tenant = inl stored /\ db_Exec createSchema = None /\
     db_Exec (createSystemsTable schemaName) = None) /\
  (forall err, db_Create tenant = inr err ->
     res = ([DbCreate tenant], inr ("failed to create tenant: " +:+ err))) /\
  (forall stored err, db_Create tenant = inl stored ->
     (CreateTenantSchema db_Exec schemaName).2 = Some err ->
     res.2 = inr err /\ last res.1 = Some (DbDelete stored)) /\
  (forall t, In (DbDelete t) res.1 ->
     db_Create tenant = inl t /\
     (CreateTenantSchema db_Exec schemaName).2 <> None) /\
  (forall sql, In (DbExec sql) res.1 ->
     sql = createSchema \/ sql = createSystemsTable schemaName).
Proof.
  intros tenant createSchema res. unfold res, CreateTenant. fold tenant.
  unfold CreateTenantSchema. fold createSchema.
  clearbody createSchema tenant.
  set (createTable := createSystemsTable schemaName). clearbody createTable.
  destruct (db_Create tenant) as [stored | e0];
    [destruct (db_Exec createSchema) as [e1|];
      [| destruct (db_Exec createTable) as [e2|]] |];
    cbn [fst snd app hd_error last];
    (split; [reflexivity |]);
    (split; [| split; [| split; [| split]]]).
  all: try (intros ?; split; [intros ?; by simplify_eq
                             | intros (? & ? & ?); by simplify_eq]).
  all: try (intros; by simplify_eq).
  all: try (intros ? Hin; cbn [In] in Hin;
            repeat (destruct Hin as [Hin | Hin]; [by simplify_eq |]);
            by destruct Hin).
  all: intros ? Hin; cbn [In] in Hin;
    repeat (destruct Hin as [Hin | Hin];
            [first [by simplify_eq | left; by simplify_eq
                   | right; by simplify_eq] |]);
    by destruct Hin.
Qed.

End TenantProperties.

Lemma schema_creation_stops_at_first_failure_witness :
  CreateTenantSchema
    (fun sql => if HasPrefix sql "CREATE SCHEMA" then Some "permission denied"
                else None) "tenant_1"
  = ([DbExec "CREATE SCHEMA IF NOT EXISTS tenant_1"],
     Some "failed to create schema tenant_1: permission denied").
Proof.
  destruct (schema_creation_stops_at_first_failure
              (fun sql => if HasPrefix sql "CREATE SCHEMA"
                          then Some "permission denied" else None)
              "tenant_1") as (_ & _ & Hfirst & _).
  exact (Hfirst "permission denied" eq_refl).
Defined.

Lemma tenant_creation_rolls_back_witness :
  last (CreateTenant
          (fun sql => if HasPrefix sql "CREATE SCHEMA" then None
                      else Some "disk full")
          (fun t => inl {| ID := "42"; Name := Name t;
                           tenant_SchemaName := tenant_SchemaName t;
                           Active := Active t; CreatedAt := 1;
                           UpdatedAt := 1 |})
          "acme" "tenant_acme").1
  = Some (DbDelete {| ID := "42"; Name := "acme";
                      tenant_SchemaName := "tenant_acme"; Active := true;
                      CreatedAt := 1; UpdatedAt := 1 |}).
Proof.
  destruct (tenant_creation_rolls_back
              (fun sql => if HasPrefix sql "CREATE SCHEMA" then None
                          else Some "disk full")
              (fun t => inl {| ID := "42"; Name := Name t;
                               tenant_SchemaName := tenant_SchemaName t;
                               Active := Active t; CreatedAt := 1;
                               UpdatedAt := 1 |})
              "acme" "tenant_acme") as (_ & _ & _ & Hback & _).
  destruct (Hback {| ID := "42"; Name := "acme";
                     tenant_SchemaName := "tenant_acme"; Active := true;
                     CreatedAt := 1; UpdatedAt := 1 |}
              "failed to create systems table in schema tenant_acme: disk full"
              eq_refl) as [_ Hlast]; [vm_compute; reflexivity |].
  exact Hlast.
Defined.
